(** * Committee scheduler API (go/scheduler/api/api.go)

    A shallow embedding of the scheduler API package: the role and
    committee-kind text codecs, the per-round transaction-scheduler
    rotation of a committee, the stake to voting-power conversion and the
    consensus-parameter change request.  Two collaborators follow it: the
    version reader of the [cbor] package and the initial epoch
    transitions of the runtime test scenario.

    Conventions.
    - A Go fixed-width integer is a [Z]; arithmetic that Go performs
      modulo 2^64 is wrapped with [u64] where the source performs it.
    - A Go [(T, error)] result is a pair [T * option error]; [None] is
      the nil error.
    - A Go run-time panic is an explicit outcome ([Panics]) of the
      functions that contain an operation able to raise one.
    - [[]byte] and [string] are both [string] (a list of 8-bit
      characters); the nil byte slice is the empty string. *)

From Stdlib Require Import ZArith Lia.
From Stdlib.Strings Require Import String Ascii.
From stdpp Require Import base numbers list list_numbers countable gmap strings pretty.

Local Open Scope Z_scope.

(** ** Fixed-width integers *)

Definition u64_modulus : Z := 2 ^ 64.
Definition MaxInt64 : Z := 2 ^ 63 - 1.
Definition MinInt64 : Z := - 2 ^ 63.

(** Wrap-around of an unsigned 64-bit result. *)
Definition u64 (z : Z) : Z := z mod u64_modulus.

(** The values a [uint64] variable can hold. *)
Definition is_uint64 (z : Z) : Prop := 0 <= z < u64_modulus.

(** ** Byte arrays of the collaborating packages *)

Module signature.
(** Modelled from the spec: [signature.PublicKey] is declared outside
    the scheduler package; the spec treats it as an opaque key whose
    bytes can be compared and ordered.  It is kept as its byte string. *)
Definition PublicKey : Type := string.
End signature.

Module common.
(** Modelled from the spec: [common.Namespace] is declared outside the
    scheduler package; a runtime identifier, kept as its byte string. *)
Definition Namespace : Type := string.
End common.

Module beacon.
(** Modelled from the spec: [beacon.EpochTime] is declared outside the
    scheduler package; an unsigned 64-bit epoch number. *)
Definition EpochTime : Type := Z.
End beacon.

(** ** Arbitrary-precision quantities *)

Module quantity.
(** Modelled from the spec: the [quantity] package is declared outside
    the scheduler package.  A quantity is an arbitrary-precision integer,
    never negative when valid. *)
Record Quantity : Type := mkQuantity { inner : Z }.

(** Modelled from the spec: the error of a failed quantity operation
    (the spec's division error). *)
Inductive quantity_error : Type :=
| ErrInvalidArgument.

(** Modelled from the spec: stakes and units are non-negative. *)
Definition IsValid (q : Quantity) : Prop := 0 <= inner q.

(** Modelled from the spec: [q.FromUint64(n)] stores [n]. *)
Definition FromUint64 (n : Z) : Quantity * option quantity_error :=
  (mkQuantity n, None).

(** Modelled from the spec: [q.Clone()] is a copy of [q]. *)
Definition Clone (q : Quantity) : Quantity := mkQuantity (inner q).

(** Modelled from the spec: [q.IsZero()]. *)
Definition IsZero (q : Quantity) : bool := inner q =? 0.

(** Modelled from the spec: [q.Quo(n)] is exact integer (floor) division
    and fails when the divisor is zero.  The result is the receiver
    after the call, and the error. *)
Definition Quo (q n : Quantity) : Quantity * option quantity_error :=
  if IsZero n then (q, Some ErrInvalidArgument)
  else (mkQuantity (inner q / inner n), None).

(** Modelled from the spec: [q.ToBigInt()] is the integer held. *)
Definition ToBigInt (q : Quantity) : Z := inner q.
End quantity.

Module big.
(** [math/big]: [Int.IsInt64] and [Int.Int64]; the latter keeps
    the low 64 bits, read as a two's-complement number. *)
Definition IsInt64 (x : Z) : bool := (MinInt64 <=? x) && (x <=? MaxInt64).
Definition Int64 (x : Z) : Z := (x + 2 ^ 63) mod u64_modulus - 2 ^ 63.
End big.

(** ** Errors and panics *)

(** One constructor per error value the package builds; the arguments
    are the values the format string prints. *)
Inductive error : Type :=
| ErrInvalidRoleValue (r : Z)
    (* fmt.Errorf("invalid role: %d", r) *)
| ErrInvalidRoleText (text : string)
    (* fmt.Errorf("invalid role: %s", string(text)) *)
| ErrNoWorkers
    (* fmt.Errorf("no workers in committee") *)
| ErrQuo (t unit : quantity.Quantity) (err : quantity.quantity_error)
    (* fmt.Errorf("quo %v / %v: %w", t, &BaseUnitsPerVotingPower, err) *)
| ErrTooManyBaseUnits (powerQ : quantity.Quantity).
    (* fmt.Errorf("%v is too many base units to convert to power", powerQ) *)

Inductive panic : Type :=
| DivideByZero       (* runtime error: integer divide by zero *)
| IndexOutOfRange.   (* runtime error: index out of range *)

Inductive outcome (A : Type) : Type :=
| Returns (a : A)
| Panics (p : panic).
Arguments Returns {A} a.
Arguments Panics {A} p.

(** ** Role *)

(** [type Role uint8] *)
Definition Role : Type := Z.

Definition RoleInvalid : Role := 0.
Definition RoleWorker : Role := 1.
Definition RoleBackupWorker : Role := 2.

Definition RoleInvalidName : string := "invalid".
Definition RoleWorkerName : string := "worker".
Definition RoleBackupWorkerName : string := "backup-worker".

(** The values of [Role] the package declares. *)
Definition defined_roles : list Role :=
  [RoleInvalid; RoleWorker; RoleBackupWorker].

(** [func (r Role) MarshalText() ([]byte, error)] *)
Definition Role_MarshalText (r : Role) : string * option error :=
  if r =? RoleInvalid then (RoleInvalidName, None)
  else if r =? RoleWorker then (RoleWorkerName, None)
  else if r =? RoleBackupWorker then (RoleBackupWorkerName, None)
  else (EmptyString, Some (ErrInvalidRoleValue r)).

(** [func (r *Role) UnmarshalText(text []byte) error]: the receiver
    after the call, and the error. *)
Definition Role_UnmarshalText (r : Role) (text : string) : Role * option error :=
  if String.eqb text RoleWorkerName then (RoleWorker, None)
  else if String.eqb text RoleBackupWorkerName then (RoleBackupWorker, None)
  else (r, Some (ErrInvalidRoleText text)).

(** ** CommitteeKind *)

(** [type CommitteeKind uint8] *)
Definition CommitteeKind : Type := Z.

Definition KindInvalid : CommitteeKind := 0.
Definition KindComputeExecutor : CommitteeKind := 1.
Definition MaxCommitteeKind : Z := 2.

Definition KindInvalidName : string := "invalid".
Definition KindComputeExecutorName : string := "executor".

Definition defined_kinds : list CommitteeKind :=
  [KindInvalid; KindComputeExecutor].

(** [func (k CommitteeKind) MarshalText() ([]byte, error)] *)
Definition CommitteeKind_MarshalText (k : CommitteeKind) : string * option error :=
  if k =? KindInvalid then (KindInvalidName, None)
  else if k =? KindComputeExecutor then (KindComputeExecutorName, None)
  else (EmptyString, Some (ErrInvalidRoleValue k)).

(** [func (k *CommitteeKind) UnmarshalText(text []byte) error] *)
Definition CommitteeKind_UnmarshalText (k : CommitteeKind) (text : string)
  : CommitteeKind * option error :=
  if String.eqb text KindComputeExecutorName then (KindComputeExecutor, None)
  else (k, Some (ErrInvalidRoleText text)).

(** ** Committees *)

(** [type CommitteeNode struct].  The fields [Role] and [PublicKey] carry
    the prefix [Node] because the types of the same names are already
    declared. *)
Record CommitteeNode : Type := mkCommitteeNode {
  NodeRole : Role;
  NodePublicKey : signature.PublicKey
}.

(** [type Committee struct].  [Members] is a slice of pointers in the
    source; every entry is modelled by the node it points to. *)
Record Committee : Type := mkCommittee {
  Kind : CommitteeKind;
  Members : list CommitteeNode;
  RuntimeID : common.Namespace;
  ValidFor : beacon.EpochTime
}.

(** [len(c.Members)] is a Go [int]: a slice never holds more than
    [MaxInt64] entries. *)
Definition slice_len_ok {A : Type} (l : list A) : Prop :=
  Z.of_nat (length l) <= MaxInt64.

(** The first loop of [TransactionSchedulerIdx]: [total] after ranging
    over [members], started from the given value. *)
Fixpoint count_workers (members : list CommitteeNode) (total : Z) : Z :=
  match members with
  | [] => total
  | member :: rest =>
      if negb (NodeRole member =? RoleWorker) then count_workers rest total
      else count_workers rest (u64 (total + 1))
  end.

(** The second loop of [TransactionSchedulerIdx], entered at index [idx]
    with the counter [worker]; falling out of the loop reaches the final
    [return 0, fmt.Errorf(...)]. *)
Fixpoint find_scheduler (members : list CommitteeNode) (idx worker total round : Z)
  : outcome (Z * option error) :=
  match members with
  | [] => Returns (0, Some ErrNoWorkers)
  | member :: rest =>
      if negb (NodeRole member =? RoleWorker) then
        find_scheduler rest (idx + 1) worker total round
      else if total =? 0 then Panics DivideByZero
      else if worker =? round mod total then Returns (idx, None)
      else find_scheduler rest (idx + 1) (u64 (worker + 1)) total round
  end.

(** [func (c *Committee) TransactionSchedulerIdx(round uint64) (int, error)] *)
Definition TransactionSchedulerIdx (c : Committee) (round : Z)
  : outcome (Z * option error) :=
  let total := count_workers (Members c) 0 in
  find_scheduler (Members c) 0 0 total round.

(** [c.Members[idx]]: the indexing expression panics out of range. *)
Definition index_members (members : list CommitteeNode) (idx : Z)
  : outcome CommitteeNode :=
  if idx <? 0 then Panics IndexOutOfRange
  else match members !! Z.to_nat idx with
       | Some member => Returns member
       | None => Panics IndexOutOfRange
       end.

(** [func (c *Committee) TransactionScheduler(round uint64)], which
    returns a node pointer and an error; the nil node pointer is [None]. *)
Definition TransactionScheduler (c : Committee) (round : Z)
  : outcome (option CommitteeNode * option error) :=
  match TransactionSchedulerIdx c round with
  | Panics p => Panics p
  | Returns (idx, Some err) => Returns (None, Some err)
  | Returns (idx, None) =>
      match index_members (Members c) idx with
      | Panics p => Panics p
      | Returns member => Returns (Some member, None)
      end
  end.

(** ** The members hash *)

Section MembersHash.
(** Modelled from the spec: [hash.NewFrom] is declared outside the
    scheduler package; it is a cryptographic digest of the serialized
    value, here any function from the member sequence to digests. *)
Variable Hash : Type.
Variable hash_NewFrom : list CommitteeNode -> Hash.

(** [func (c *Committee) EncodedMembersHash() hash.Hash] *)
Definition EncodedMembersHash (c : Committee) : Hash :=
  hash_NewFrom (Members c).
End MembersHash.
Arguments EncodedMembersHash {Hash} hash_NewFrom c.

(** ** Voting power *)

(** [var BaseUnitsPerVotingPower quantity.Quantity], as [init] leaves it:
    [BaseUnitsPerVotingPower.FromUint64(16)], which does not fail. *)
Definition BaseUnitsPerVotingPower : quantity.Quantity :=
  fst (quantity.FromUint64 16).

(** The body of [VotingPowerFromStake], with the package variable it
    reads passed in as [unit]. *)
Definition VotingPowerFromStake_with (unit t : quantity.Quantity)
  : Z * option error :=
  let powerQ := quantity.Clone t in
  match quantity.Quo powerQ unit with
  | (_, Some err) => (0, Some (ErrQuo t unit err))
  | (powerQ, None) =>
      if quantity.IsZero powerQ then (1, None)
      else
        let powerBI := quantity.ToBigInt powerQ in
        if negb (big.IsInt64 powerBI) then (0, Some (ErrTooManyBaseUnits powerQ))
        else (big.Int64 powerBI, None)
  end.

(** [func VotingPowerFromStake(t *quantity.Quantity) (int64, error)] *)
Definition VotingPowerFromStake (t : quantity.Quantity) : Z * option error :=
  VotingPowerFromStake_with BaseUnitsPerVotingPower t.

(** ** Consensus parameters *)

(** [type ForceElectCommitteeRole struct] *)
Record ForceElectCommitteeRole : Type := mkForceElectCommitteeRole {
  ForceKind : CommitteeKind;
  Roles : list Role;
  IsScheduler : bool
}.

(** [func (fe *ForceElectCommitteeRole) HasRole(role Role) bool] *)
Definition HasRole (fe : ForceElectCommitteeRole) (role : Role) : bool :=
  existsb (fun r => r =? role) (Roles fe).

(** [type ConsensusParameters struct]; [int] is 64 bits wide. *)
Record ConsensusParameters : Type := mkConsensusParameters {
  MinValidators : Z;
  MaxValidators : Z;
  MaxValidatorsPerEntity : Z;
  DebugBypassStake : bool;
  RewardFactorEpochElectionAny : quantity.Quantity;
  DebugForceElect :
    gmap common.Namespace (gmap signature.PublicKey ForceElectCommitteeRole);
  DebugAllowWeakAlpha : bool
}.

(** [type ConsensusParameterChanges struct]; a nil [*int] is [None].
    The fields carry the prefix [New] because [ConsensusParameters]
    already declares the plain names. *)
Record ConsensusParameterChanges : Type := mkConsensusParameterChanges {
  NewMinValidators : option Z;
  NewMaxValidators : option Z
}.

(** [func (c *ConsensusParameterChanges) Apply(params *ConsensusParameters) error]:
    the parameters after the call, and the error. *)
Definition Apply (c : ConsensusParameterChanges) (params : ConsensusParameters)
  : ConsensusParameters * option error :=
  let params :=
    match NewMinValidators c with
    | Some v =>
        {| MinValidators := v;
           MaxValidators := MaxValidators params;
           MaxValidatorsPerEntity := MaxValidatorsPerEntity params;
           DebugBypassStake := DebugBypassStake params;
           RewardFactorEpochElectionAny := RewardFactorEpochElectionAny params;
           DebugForceElect := DebugForceElect params;
           DebugAllowWeakAlpha := DebugAllowWeakAlpha params |}
    | None => params
    end in
  let params :=
    match NewMaxValidators c with
    | Some v =>
        {| MinValidators := MinValidators params;
           MaxValidators := v;
           MaxValidatorsPerEntity := MaxValidatorsPerEntity params;
           DebugBypassStake := DebugBypassStake params;
           RewardFactorEpochElectionAny := RewardFactorEpochElectionAny params;
           DebugForceElect := DebugForceElect params;
           DebugAllowWeakAlpha := DebugAllowWeakAlpha params |}
    | None => params
    end in
  (params, None).

(** ** Specification-side notions

    These follow the words of the specification, not the code: the
    workers of a committee, their number, and their positions in
    [Members] order. *)

Definition is_worker (member : CommitteeNode) : bool :=
  NodeRole member =? RoleWorker.

(** The number of members whose role is Worker. *)
Definition worker_total (c : Committee) : Z :=
  Z.of_nat (length (List.filter is_worker (Members c))).

(** Whether position [i] of [members] holds a Worker. *)
Definition worker_at (members : list CommitteeNode) (i : Z) : bool :=
  match members !! Z.to_nat i with
  | Some member => is_worker member
  | None => false
  end.

(** The positions of the Worker members, in increasing order. *)
Definition worker_indices (c : Committee) : list Z :=
  List.filter (worker_at (Members c)) (seqZ 0 (Z.of_nat (length (Members c)))).

(** The same positions, computed along the list and counted from [i]. *)
Fixpoint worker_indices_from (i : Z) (members : list CommitteeNode) : list Z :=
  match members with
  | [] => []
  | member :: rest =>
      if is_worker member then i :: worker_indices_from (i + 1) rest
      else worker_indices_from (i + 1) rest
  end.

(** What it means for a value to survive encoding then decoding: the
    encoder succeeds, and the decoder, whatever the receiver held before,
    succeeds on the encoder's text and stores the value. *)
Definition Role_roundtrips (r : Role) : Prop :=
  snd (Role_MarshalText r) = None /\
  forall r0 : Role,
    Role_UnmarshalText r0 (fst (Role_MarshalText r)) = (r, None).

Definition CommitteeKind_roundtrips (k : CommitteeKind) : Prop :=
  snd (CommitteeKind_MarshalText k) = None /\
  forall k0 : CommitteeKind,
    CommitteeKind_UnmarshalText k0 (fst (CommitteeKind_MarshalText k)) = (k, None).

(** The committee of the specification's end-to-end example. *)
Definition example_committee : Committee :=
  {| Kind := KindComputeExecutor;
     Members := [ mkCommitteeNode RoleWorker "A";
                  mkCommitteeNode RoleBackupWorker "B";
                  mkCommitteeNode RoleWorker "C" ];
     RuntimeID := "runtime";
     ValidFor := 1 |}.

(** A consistent pair of bounds, and a change that raises the minimum
    above the maximum. *)
Definition consistent_params : ConsensusParameters :=
  {| MinValidators := 1;
     MaxValidators := 100;
     MaxValidatorsPerEntity := 1;
     DebugBypassStake := false;
     RewardFactorEpochElectionAny := quantity.mkQuantity 0;
     DebugForceElect := ∅;
     DebugAllowWeakAlpha := false |}.

Definition raise_minimum : ConsensusParameterChanges :=
  {| NewMinValidators := Some 200; NewMaxValidators := None |}.

(** ** String forms *)

(** [fmt]'s [%d] verb on an unsigned integer: its decimal digits. *)
Definition Sprintf_d (n : Z) : string := pretty n.

(** [func (r Role) String() string] *)
Definition Role_String (r : Role) : string :=
  if r =? RoleInvalid then RoleInvalidName
  else if r =? RoleWorker then RoleWorkerName
  else if r =? RoleBackupWorker then RoleBackupWorkerName
  else "[unknown role: " +:+ Sprintf_d r +:+ "]".

(** [func (k CommitteeKind) String() string] *)
Definition CommitteeKind_String (k : CommitteeKind) : string :=
  if k =? KindInvalid then KindInvalidName
  else if k =? KindComputeExecutor then KindComputeExecutorName
  else "[unknown kind: " +:+ Sprintf_d k +:+ "]".

(** ** Specification-side notions for the further properties *)

(** The committee with its non-Worker members removed. *)
Definition workers_only (c : Committee) : Committee :=
  {| Kind := Kind c;
     Members := List.filter is_worker (Members c);
     RuntimeID := RuntimeID c;
     ValidFor := ValidFor c |}.

(** The change request that has the effect of [c1] followed by [c2]:
    a field of [c2] wins when it is present. *)
Definition merge_changes (c1 c2 : ConsensusParameterChanges)
  : ConsensusParameterChanges :=
  {| NewMinValidators :=
       match NewMinValidators c2 with
       | Some v => Some v
       | None => NewMinValidators c1
       end;
     NewMaxValidators :=
       match NewMaxValidators c2 with
       | Some v => Some v
       | None => NewMaxValidators c1
       end |}.

(** * Versioned blobs (package [cbor]) *)

Module cbor.
(** [const invalidVersion = math.MaxUint16] *)
Definition invalidVersion : Z := 65535.

(** [type Versioned struct]; [V] is a [uint16]. *)
Record Versioned : Type := mkVersioned { V : Z }.

(** The errors [GetVersion] returns: the decoder's own, passed on as
    they are, and [ErrInvalidVersion]. *)
Inductive version_error (DecodeError : Type) : Type :=
| ErrDecode (err : DecodeError)
| ErrInvalidVersion.
Arguments ErrDecode {DecodeError} err.
Arguments ErrInvalidVersion {DecodeError}.

Section GetVersion.
(** [decModeVersioned.Unmarshal(data, &vblob)] belongs to the CBOR
    library: given the bytes and the blob to fill, it yields the blob
    after the call and the error. *)
Variable DecodeError : Type.
Variable Unmarshal : string -> Versioned -> Versioned * option DecodeError.

(** [func GetVersion(data []byte) (uint16, error)] *)
Definition GetVersion (data : string) : Z * option (version_error DecodeError) :=
  let vblob := {| V := invalidVersion |} in
  match Unmarshal data vblob with
  | (_, Some err) => (0, Some (ErrDecode err))
  | (vblob, None) =>
      if V vblob =? invalidVersion then (0, Some ErrInvalidVersion)
      else (V vblob, None)
  end.
End GetVersion.
End cbor.

(** * The runtime test scenario (package [runtime]) *)

Module runtime.
(** The local variable [fullName] of [NewScenario], as computed from
    the scenario's [name]. *)
Definition NewScenario_fullName (name : string) : string :=
  let fullName := "runtime"%string in
  if negb (String.eqb name "") then fullName +:+ ("/" +:+ name)
  else fullName.

(** The errors [initialEpochTransitionsWith] builds around an error of a
    collaborator. *)
Inductive scenario_error (E : Type) : Type :=
| ErrSetEpoch (err : E)
    (* fmt.Errorf("failed to set epoch: %w", err) *)
| ErrWaitValidator (err : E)
    (* fmt.Errorf("failed to wait for a validator: %w", err) *)
| ErrWaitKeyManager (err : E)
    (* fmt.Errorf("failed to wait for a key manager: %w", err) *)
| ErrWaitComputeWorker (err : E)
    (* fmt.Errorf("failed to wait for a compute worker: %w", err) *)
| ErrWaitNodes (err : E).
    (* fmt.Errorf("failed to wait for nodes: %w", err) *)
Arguments ErrSetEpoch {E} err.
Arguments ErrWaitValidator {E} err.
Arguments ErrWaitKeyManager {E} err.
Arguments ErrWaitComputeWorker {E} err.
Arguments ErrWaitNodes {E} err.

Section InitialEpochTransitions.
(** The errors of the test network's calls. *)
Variable E : Type.
(** [beacon.BackendVRF], a constant of the beacon package. *)
Variable BackendVRF : string.

(** The test network [sc.Net], as far as [initialEpochTransitionsWith]
    consults it.  A node is what its [WaitReady(ctx)] returns (the
    function calls it at most once per node);
    [SetEpoch] is [Controller().SetEpoch(ctx, epoch)], given as the
    answer to each epoch asked for (the function asks for an epoch at
    most once, and stops at the first refusal);
    [WaitNodesRegistered] is what
    [Controller().WaitNodesRegistered(ctx, NumRegisterNodes())] returns;
    [Backend] is [Config().Beacon.Backend].  Logging is left out. *)
Record Network : Type := mkNetwork {
  Validators : list (option E);
  Keymanagers : list (option E);
  ComputeWorkers : list (option E);
  Byzantine : list (option E);
  WaitNodesRegistered : option E;
  Backend : string;
  SetEpoch : beacon.EpochTime -> option E
}.

(** [oasis.NetworkFixture]: the [NoAutoStart] flag of each validator,
    key manager and compute worker fixture. *)
Record NetworkFixture : Type := mkNetworkFixture {
  ValidatorsNoAutoStart : list bool;
  KeymanagersNoAutoStart : list bool;
  ComputeWorkersNoAutoStart : list bool
}.

(** [type Scenario struct], the fields the function reads. *)
Record Scenario : Type := mkScenario {
  Net : Network;
  debugNoRandomInitialEpoch : bool;
  debugWeakAlphaOk : bool
}.

(** The state the function threads: the captured variable [epoch], and
    the epochs the network has been set to so far. *)
Definition state : Type := beacon.EpochTime * list beacon.EpochTime.

(** How a step ends: it falls through to the next statement, it
    returns the current [epoch] with an error, or it panics. *)
Inductive result (A : Type) : Type :=
| Ok (a : A)
| Return (err : scenario_error E)
| Crash (p : panic).
Arguments Ok {A} a.
Arguments Return {A} err.
Arguments Crash {A} p.

Definition run (A : Type) : Type := state -> state * result A.

Definition ret {A : Type} (a : A) : run A := fun st => (st, Ok a).

Definition bind {A B : Type} (m : run A) (f : A -> run B) : run B :=
  fun st =>
    match m st with
    | (st', Ok a) => f a st'
    | (st', Return err) => (st', Return err)
    | (st', Crash p) => (st', Crash p)
    end.

Local Notation "m >>> k" := (bind m (fun _ => k))
  (at level 100, k at level 200, right associativity).

(** [if b { m }] *)
Definition when (b : bool) (m : run unit) : run unit :=
  if b then m else ret tt.

(** The closure [advanceEpoch]. *)
Definition advanceEpoch (net : Network) : run unit :=
  fun st =>
    let '(epoch, trace) := st in
    match SetEpoch net epoch with
    | Some err => ((epoch, trace), Return (ErrSetEpoch err))
    | None => ((u64 (epoch + 1), trace ++ [epoch]), Ok tt)
    end.

(** [for i, n := range nodes { if fixture[i].NoAutoStart { continue };
    if err := n.WaitReady(ctx); err != nil { return ... } }], entered at
    index [i]. *)
Fixpoint wait_nodes (nodes : list (option E)) (noAutoStart : list bool) (i : nat)
  : outcome (option E) :=
  match nodes with
  | [] => Returns None
  | n :: rest =>
      match noAutoStart !! i with
      | None => Panics IndexOutOfRange
      | Some true => wait_nodes rest noAutoStart (S i)
      | Some false =>
          match n with
          | Some err => Returns (Some err)
          | None => wait_nodes rest noAutoStart (S i)
          end
      end
  end.

Definition wait_all (wrap : E -> scenario_error E)
    (nodes : list (option E)) (noAutoStart : list bool) : run unit :=
  fun st =>
    match wait_nodes nodes noAutoStart 0 with
    | Returns None => (st, Ok tt)
    | Returns (Some err) => (st, Return (wrap err))
    | Panics p => (st, Crash p)
    end.

Definition wait_registered (net : Network) : run unit :=
  fun st =>
    match WaitNodesRegistered net with
    | Some err => (st, Return (ErrWaitNodes err))
    | None => (st, Ok tt)
    end.

(** [for i := 0; i < numSkips; i++ { advanceEpoch() }], with the number
    of iterations left. *)
Fixpoint advance_times (net : Network) (n : nat) : run unit :=
  match n with
  | O => ret tt
  | S n => advanceEpoch net >>> advance_times net n
  end.

(** [numSkips := (int)(randByte[0]&3) + 1] *)
Definition numSkips (randByte : Z) : Z := Z.land randByte 3 + 1.

(** The statements of [initialEpochTransitionsWith] after the
    declaration of [epoch] and [advanceEpoch], up to the final
    [return epoch, nil]; the byte that [rand.Read] produced is passed
    in. *)
Definition initialEpochTransitionsWith_body (sc : Scenario) (fixture : NetworkFixture)
    (randByte : Z) : run unit :=
  let net := Net sc in
  when (0 <? Z.of_nat (length (Keymanagers net)))
    (wait_all ErrWaitValidator (Validators net) (ValidatorsNoAutoStart fixture) >>>
     wait_all ErrWaitKeyManager (Keymanagers net) (KeymanagersNoAutoStart fixture)) >>>
  advanceEpoch net >>>
  wait_all ErrWaitComputeWorker (ComputeWorkers net) (ComputeWorkersNoAutoStart fixture) >>>
  when (0 <? Z.of_nat (length (Byzantine net))) (wait_registered net) >>>
  advanceEpoch net >>>
  when (String.eqb (Backend net) "" || String.eqb (Backend net) BackendVRF)
    (when (negb (debugWeakAlphaOk sc)) (advanceEpoch net >>> advanceEpoch net) >>>
     when (negb (debugNoRandomInitialEpoch sc))
       (advance_times net (Z.to_nat (numSkips randByte)))).

(** [func (sc *Scenario) initialEpochTransitionsWith(ctx, fixture, baseEpoch)].
    The result is the list of epochs the network was set to, and what
    the function returns. *)
Definition initialEpochTransitionsWith (sc : Scenario) (fixture : NetworkFixture)
    (randByte : Z) (baseEpoch : beacon.EpochTime)
  : list beacon.EpochTime * outcome (beacon.EpochTime * option (scenario_error E)) :=
  match initialEpochTransitionsWith_body sc fixture randByte (u64 (baseEpoch + 1), []) with
  | ((epoch, trace), Ok _) => (trace, Returns (epoch, None))
  | ((epoch, trace), Return err) => (trace, Returns (epoch, Some err))
  | ((epoch, trace), Crash p) => (trace, Panics p)
  end.

(** [func (sc *Scenario) initialEpochTransitions(ctx, fixture)] *)
Definition initialEpochTransitions (sc : Scenario) (fixture : NetworkFixture)
    (randByte : Z)
  : list beacon.EpochTime * outcome (beacon.EpochTime * option (scenario_error E)) :=
  initialEpochTransitionsWith sc fixture randByte 0.

(** Specification-side: the number of epoch transitions a run that
    meets no error performs. *)
Definition transitions (sc : Scenario) (randByte : Z) : nat :=
  (2 + if String.eqb (Backend (Net sc)) "" || String.eqb (Backend (Net sc)) BackendVRF
       then (if debugWeakAlphaOk sc then 0 else 2)
            + (if debugNoRandomInitialEpoch sc then 0
               else Z.to_nat (numSkips randByte))
       else 0)%nat.

(** Specification-side: the epochs set by [n] transitions that start
    after [baseEpoch]. *)
Definition epochs_set (baseEpoch : beacon.EpochTime) (n : nat) : list beacon.EpochTime :=
  (fun i => u64 (baseEpoch + 1 + Z.of_nat i)) <$> seq 0 n.

(** Specification-side: the relation between the two parts of the
    state: the epochs set so far are consecutive after [baseEpoch], and
    [epoch] is the next one. *)
Definition consistent (baseEpoch : beacon.EpochTime) (st : state) : Prop :=
  snd st = epochs_set baseEpoch (length (snd st)) /\
  fst st = u64 (baseEpoch + 1 + Z.of_nat (length (snd st))).

(** Specification-side: a step keeps the state consistent, sets at most
    [k] epochs, and sets exactly [k] when it falls through. *)
Definition advances (baseEpoch : beacon.EpochTime) (m : run unit) (k : nat) : Prop :=
  forall st : state,
    consistent baseEpoch st ->
    consistent baseEpoch (fst (m st)) /\
    (length (snd (fst (m st))) <= length (snd st) + k)%nat /\
    (snd (m st) = Ok tt -> length (snd (fst (m st))) = (length (snd st) + k)%nat).

(** Specification-side: every node that is waited for is ready, and the
    fixture has a flag for every node. *)
Definition all_ready (nodes : list (option E)) (noAutoStart : list bool) : Prop :=
  (length nodes <= length noAutoStart)%nat /\
  forall (i : nat) (err : E),
    nodes !! i = Some (Some err) -> noAutoStart !! i = Some true.
(** Specification-side: a step that always falls through to the next
    statement. *)
Definition falls_through (m : run unit) : Prop :=
  forall st : state, snd (m st) = Ok tt.

(** Specification-side: when a step returns a set-epoch error, the
    epoch it leaves in the state is the one the network refused. *)
Definition reports_refused_epoch (net : Network) (m : run unit) : Prop :=
  forall (st : state) (err : E),
    snd (m st) = Return (ErrSetEpoch err) ->
    SetEpoch net (fst (fst (m st))) = Some err.
End InitialEpochTransitions.

(** The errors [waitNodesSynced] builds around an error of a node. *)
Inductive sync_error (E : Type) : Type :=
| ErrCreateController (err : E)
    (* fmt.Errorf("failed to create node controller: %w", err) *)
| ErrWaitSync (err : E).
    (* fmt.Errorf("failed to wait for node to sync: %w", err) *)
Arguments ErrCreateController {E} err.
Arguments ErrWaitSync {E} err.

Section WaitNodesSynced.
Variable E : Type.

(** A node of the test network, as far as [waitNodesSynced] consults
    it: the error of [oasis.NewController(n.SocketPath())], and the error
    of [WaitSync(ctx)] on the controller obtained. *)
Record Node : Type := mkNode {
  NewController : option E;
  WaitSync : option E
}.

(** The closure [checkSynced]. *)
Definition checkSynced (n : Node) : option (sync_error E) :=
  match NewController n with
  | Some err => Some (ErrCreateController err)
  | None =>
      match WaitSync n with
      | Some err => Some (ErrWaitSync err)
      | None => None
      end
  end.

(** [for _, n := range nodes { if err := checkSynced(n.Node); err != nil
    { return err } }]; [None] when the loop runs to its end. *)
Fixpoint check_all (nodes : list Node) : option (sync_error E) :=
  match nodes with
  | [] => None
  | n :: rest =>
      match checkSynced n with
      | Some err => Some err
      | None => check_all rest
      end
  end.

(** [func (sc *Scenario) waitNodesSynced(ctx) error], given the
    validators, compute workers and clients of [sc.Net]. *)
Definition waitNodesSynced (validators computeWorkers clients : list Node)
  : option (sync_error E) :=
  match check_all validators with
  | Some err => Some err
  | None =>
      match check_all computeWorkers with
      | Some err => Some err
      | None =>
          match check_all clients with
          | Some err => Some err
          | None => None
          end
      end
  end.
End WaitNodesSynced.
End runtime.

(** A test network of three validators, one key manager and two compute
    workers in which every call succeeds, except that the second compute
    worker, which is not started automatically, is not ready. *)
Definition example_network : runtime.Network string :=
  {| runtime.Validators := [None; None; None];
     runtime.Keymanagers := [None];
     runtime.ComputeWorkers := [None; Some "not started"%string];
     runtime.Byzantine := [];
     runtime.WaitNodesRegistered := None;
     runtime.Backend := "";
     runtime.SetEpoch := fun _ => None |}.

Definition example_fixture : runtime.NetworkFixture :=
  {| runtime.ValidatorsNoAutoStart := [false; false; false];
     runtime.KeymanagersNoAutoStart := [false];
     runtime.ComputeWorkersNoAutoStart := [false; true] |}.

Definition example_scenario : runtime.Scenario string :=
  {| runtime.Net := example_network;
     runtime.debugNoRandomInitialEpoch := false;
     runtime.debugWeakAlphaOk := false |}.

(** * Theorems *)

(** ** Fixed-width arithmetic *)

Lemma u64_small (z : Z) : is_uint64 z -> u64 z = z.
Proof. unfold is_uint64, u64. intros H. by apply Z.mod_small. Qed.

Lemma u64_is_uint64 (z : Z) : is_uint64 (u64 z).
Proof. unfold is_uint64, u64, u64_modulus. apply Z.mod_pos_bound. lia. Qed.

Lemma u64_add_l (a b : Z) : u64 (u64 a + b) = u64 (a + b).
Proof. unfold u64. apply Zplus_mod_idemp_l. Qed.

(** ** The two loops of [TransactionSchedulerIdx] *)

Lemma length_worker_indices_from (i : Z) (members : list CommitteeNode) :
  length (worker_indices_from i members) = length (List.filter is_worker members).
Proof.
  revert i. induction members as [|member rest IH]; intros i; simpl; [done|].
  destruct (is_worker member); simpl; by rewrite IH.
Qed.

Lemma count_workers_spec (members : list CommitteeNode) (total : Z) :
  is_uint64 total ->
  count_workers members total
  = u64 (total + Z.of_nat (length (List.filter is_worker members))).
Proof.
  revert total. induction members as [|member rest IH]; intros total Ht; simpl.
  - rewrite Z.add_0_r. by rewrite u64_small.
  - fold (is_worker member). destruct (is_worker member); simpl.
    + rewrite IH by apply u64_is_uint64. rewrite u64_add_l. f_equal. lia.
    + by apply IH.
Qed.

Lemma length_filter_le {A : Type} (f : A -> bool) (l : list A) :
  (length (List.filter f l) <= length l)%nat.
Proof. induction l as [|a l IH]; simpl; [lia|]. destruct (f a); simpl; lia. Qed.

Lemma count_workers_total (c : Committee) :
  slice_len_ok (Members c) -> count_workers (Members c) 0 = worker_total c.
Proof.
  intros Hlen. rewrite count_workers_spec by (unfold is_uint64, u64_modulus; lia).
  unfold worker_total. rewrite Z.add_0_l. apply u64_small.
  pose proof (length_filter_le is_worker (Members c)) as Hle.
  unfold slice_len_ok, MaxInt64 in Hlen. unfold is_uint64, u64_modulus. lia.
Qed.

Lemma find_scheduler_no_workers (members : list CommitteeNode) (idx worker total round : Z) :
  List.filter is_worker members = [] ->
  find_scheduler members idx worker total round = Returns (0, Some ErrNoWorkers).
Proof.
  revert idx. induction members as [|member rest IH]; intros idx Hnone; simpl; [done|].
  simpl in Hnone. fold (is_worker member). destruct (is_worker member); [done|].
  simpl. by apply IH.
Qed.

Lemma find_scheduler_lookup (members : list CommitteeNode) (idx worker total round i : Z) :
  0 < total < u64_modulus ->
  0 <= worker <= round mod total ->
  worker_indices_from idx members !! Z.to_nat (round mod total - worker) = Some i ->
  find_scheduler members idx worker total round = Returns (i, None).
Proof.
  intros Htotal. revert idx worker.
  induction members as [|member rest IH]; intros idx worker Hw Hi; simpl in *; [done|].
  fold (is_worker member). destruct (is_worker member); simpl.
  - destruct (Z.eqb_spec total 0) as [?|_]; [lia|].
    destruct (Z.eqb_spec worker (round mod total)) as [->|Hne].
    + rewrite Z.sub_diag in Hi. simpl in Hi. congruence.
    + pose proof (Z.mod_pos_bound round total ltac:(lia)) as Hk.
      rewrite u64_small by (unfold is_uint64; lia).
      apply IH; [lia|].
      replace (Z.to_nat (round mod total - worker))
        with (S (Z.to_nat (round mod total - (worker + 1)))) in Hi by lia.
      exact Hi.
  - by apply IH.
Qed.

(** ** The positions of the workers *)

Lemma worker_at_cons (member : CommitteeNode) (rest : list CommitteeNode) (j : Z) :
  0 < j -> worker_at (member :: rest) j = worker_at rest (j - 1).
Proof.
  intros Hj. unfold worker_at.
  replace (Z.to_nat j) with (S (Z.to_nat (j - 1))) by lia. done.
Qed.

Lemma worker_indices_from_filter (i : Z) (members : list CommitteeNode) :
  worker_indices_from i members
  = List.filter (fun j => worker_at members (j - i))
      (seqZ i (Z.of_nat (length members))).
Proof.
  revert i. induction members as [|member rest IH]; intros i.
  - by rewrite seqZ_nil.
  - cbn [length worker_indices_from]. rewrite seqZ_cons by lia.
    cbn [List.filter]. rewrite Z.sub_diag.
    replace (Z.pred (Z.of_nat (S (length rest)))) with (Z.of_nat (length rest)) by lia.
    replace (Z.succ i) with (i + 1) by lia.
    assert (List.filter (fun j => worker_at (member :: rest) (j - i))
              (seqZ (i + 1) (Z.of_nat (length rest)))
            = worker_indices_from (i + 1) rest) as ->.
    { rewrite IH. apply List.filter_ext_in. intros j Hj.
      apply list_elem_of_In, elem_of_seqZ in Hj.
      rewrite worker_at_cons by lia. f_equal. lia. }
    unfold worker_at at 1. simpl. by destruct (is_worker member).
Qed.

Lemma worker_indices_from_0 (c : Committee) :
  worker_indices_from 0 (Members c) = worker_indices c.
Proof.
  rewrite worker_indices_from_filter. unfold worker_indices.
  apply List.filter_ext. intros j. by rewrite Z.sub_0_r.
Qed.

Lemma length_worker_indices (c : Committee) :
  Z.of_nat (length (worker_indices c)) = worker_total c.
Proof.
  rewrite <- worker_indices_from_0, length_worker_indices_from. done.
Qed.

(** The [k]-th entry of the list of worker positions is the position of
    a Worker member that exactly [k] Worker members precede. *)
Lemma worker_indices_from_lookup (i : Z) (members : list CommitteeNode) (k : nat) (j : Z) :
  worker_indices_from i members !! k = Some j ->
  i <= j /\
  exists member,
    members !! Z.to_nat (j - i) = Some member /\
    NodeRole member = RoleWorker /\
    length (List.filter is_worker (take (Z.to_nat (j - i)) members)) = k.
Proof.
  revert i k. induction members as [|member rest IH]; intros i k Hk; simpl in Hk; [done|].
  destruct (is_worker member) eqn:Hm.
  - destruct k as [|k]; simpl in Hk.
    + injection Hk as <-. split; [lia|]. exists member.
      rewrite Z.sub_diag. simpl. split; [done|]. split; [|done].
      unfold is_worker in Hm. by apply Z.eqb_eq in Hm.
    + apply IH in Hk as [Hle (m & Hlook & Hrole & Hcount)].
      split; [lia|]. exists m.
      replace (Z.to_nat (j - i)) with (S (Z.to_nat (j - (i + 1)))) by lia.
      simpl. rewrite Hm. simpl. by rewrite Hcount.
  - apply IH in Hk as [Hle (m & Hlook & Hrole & Hcount)].
    split; [lia|]. exists m.
    replace (Z.to_nat (j - i)) with (S (Z.to_nat (j - (i + 1)))) by lia.
    simpl. rewrite Hm. by rewrite Hcount.
Qed.

Lemma worker_indices_lookup (c : Committee) (k : nat) (idx : Z) :
  worker_indices c !! k = Some idx ->
  0 <= idx /\
  exists member,
    Members c !! Z.to_nat idx = Some member /\
    NodeRole member = RoleWorker /\
    length (List.filter is_worker (take (Z.to_nat idx) (Members c))) = k.
Proof.
  rewrite <- worker_indices_from_0. intros H.
  apply worker_indices_from_lookup in H. by rewrite Z.sub_0_r in H.
Qed.

(** The list of worker positions holds the positions of the Worker
    members, each once. *)
Lemma elem_of_worker_indices (c : Committee) (idx : Z) :
  idx ∈ worker_indices c <->
  0 <= idx /\
  exists member,
    Members c !! Z.to_nat idx = Some member /\ NodeRole member = RoleWorker.
Proof.
  unfold worker_indices.
  rewrite list_elem_of_In, List.filter_In, <- list_elem_of_In, elem_of_seqZ.
  unfold worker_at, is_worker. split.
  - intros [[Hpos _] Hw]. split; [done|].
    destruct (Members c !! Z.to_nat idx) as [member|]; [|done].
    exists member. split; [done|]. by apply Z.eqb_eq.
  - intros [Hpos (member & Hlook & Hrole)].
    pose proof (lookup_lt_Some _ _ _ Hlook) as Hlt.
    split; [lia|]. rewrite Hlook. by apply Z.eqb_eq.
Qed.

Lemma NoDup_worker_indices (c : Committee) : NoDup (worker_indices c).
Proof.
  unfold worker_indices.
  apply NoDup_ListNoDup, List.NoDup_filter, NoDup_ListNoDup, NoDup_seqZ.
Qed.

(** ** [TransactionSchedulerIdx] against the list of worker positions *)

Lemma TransactionSchedulerIdx_lookup (c : Committee) (round idx : Z) :
  slice_len_ok (Members c) ->
  1 <= worker_total c ->
  worker_indices c !! Z.to_nat (round mod worker_total c) = Some idx ->
  TransactionSchedulerIdx c round = Returns (idx, None).
Proof.
  intros Hlen Htotal Hidx. unfold TransactionSchedulerIdx.
  rewrite count_workers_total by done.
  pose proof (length_filter_le is_worker (Members c)) as Hle.
  pose proof (Z.mod_pos_bound round (worker_total c) ltac:(lia)) as Hk.
  apply find_scheduler_lookup.
  - unfold worker_total, slice_len_ok, MaxInt64, u64_modulus in *. lia.
  - lia.
  - rewrite worker_indices_from_0, Z.sub_0_r. done.
Qed.

Lemma worker_indices_lookup_mod (c : Committee) (round : Z) :
  1 <= worker_total c ->
  is_Some (worker_indices c !! Z.to_nat (round mod worker_total c)).
Proof.
  intros Htotal. apply lookup_lt_is_Some.
  pose proof (Z.mod_pos_bound round (worker_total c) ltac:(lia)) as Hk.
  pose proof (length_worker_indices c). lia.
Qed.

Lemma TransactionSchedulerIdx_no_workers (c : Committee) (round : Z) :
  worker_total c = 0 ->
  TransactionSchedulerIdx c round = Returns (0, Some ErrNoWorkers).
Proof.
  intros Hzero. unfold TransactionSchedulerIdx. apply find_scheduler_no_workers.
  unfold worker_total in Hzero. apply nil_length_inv. lia.
Qed.

Lemma TransactionSchedulerIdx_worker (c : Committee) (round : Z) :
  slice_len_ok (Members c) ->
  1 <= worker_total c ->
  exists idx member,
    TransactionSchedulerIdx c round = Returns (idx, None) /\
    0 <= idx < Z.of_nat (length (Members c)) /\
    Members c !! Z.to_nat idx = Some member /\
    NodeRole member = RoleWorker /\
    Z.of_nat (length (List.filter is_worker (take (Z.to_nat idx) (Members c))))
    = round mod worker_total c.
Proof.
  intros Hlen Htotal.
  destruct (worker_indices_lookup_mod c round Htotal) as [idx Hidx].
  pose proof (TransactionSchedulerIdx_lookup c round idx Hlen Htotal Hidx) as Hrun.
  apply worker_indices_lookup in Hidx as [Hpos (member & Hlook & Hrole & Hcount)].
  exists idx, member. split; [done|].
  pose proof (lookup_lt_Some _ _ _ Hlook) as Hlt.
  pose proof (Z.mod_pos_bound round (worker_total c) ltac:(lia)).
  repeat split; try done; lia.
Qed.

Lemma lookup_app_self_mod {A : Type} (l : list A) (i : nat) :
  (i < 2 * length l)%nat ->
  (l ++ l) !! i = l !! Z.to_nat (Z.of_nat i mod Z.of_nat (length l)).
Proof.
  intros Hi. destruct (decide (i < length l)%nat) as [Hlt|Hge].
  - rewrite lookup_app_l by done. rewrite Z.mod_small by lia. f_equal. lia.
  - rewrite lookup_app_r by lia. f_equal.
    replace (Z.of_nat i) with (Z.of_nat (i - length l) + 1 * Z.of_nat (length l)) by lia.
    rewrite Z.mod_add by lia. rewrite Z.mod_small by lia. lia.
Qed.

Lemma TransactionSchedulerIdx_two_periods (c : Committee) :
  slice_len_ok (Members c) ->
  1 <= worker_total c ->
  TransactionSchedulerIdx c <$> seqZ 0 (2 * worker_total c)
  = (fun idx => Returns (idx, None)) <$> (worker_indices c ++ worker_indices c).
Proof.
  intros Hlen Htotal. pose proof (length_worker_indices c) as Hwi.
  apply list_eq. intros i. rewrite !list_lookup_fmap.
  destruct (decide (Z.of_nat i < 2 * worker_total c)) as [Hlt|Hge].
  - rewrite lookup_seqZ_lt by done. rewrite Z.add_0_l. simpl.
    rewrite lookup_app_self_mod by lia. rewrite Hwi.
    destruct (worker_indices_lookup_mod c (Z.of_nat i) Htotal) as [idx Hidx].
    rewrite Hidx. simpl. f_equal. by apply TransactionSchedulerIdx_lookup.
  - rewrite lookup_seqZ_ge by lia.
    rewrite (lookup_ge_None_2 (worker_indices c ++ worker_indices c))
      by (rewrite length_app; lia).
    done.
Qed.

(** ** Claims about the rotation *)

(** The guard of the second loop is what keeps the modulo safe: entered
    with [total = 0] at a Worker member, the loop panics. *)
Example find_scheduler_zero_total_panics :
  find_scheduler [mkCommitteeNode RoleWorker "A"] 0 0 0 7 = Panics DivideByZero.
Proof. reflexivity. Qed.

Example TransactionSchedulerIdx_example :
  TransactionSchedulerIdx example_committee <$> seqZ 0 4
  = [Returns (0, None); Returns (2, None); Returns (0, None); Returns (2, None)].
Proof. reflexivity. Qed.

(** C1: for a committee with at least one Worker member and an unsigned
    64-bit round, [TransactionSchedulerIdx] returns, with no error, the
    position in [Members] of the Worker member that exactly
    [round mod total] Worker members precede, where [total] is the number
    of Worker members; rounds congruent modulo [total] give the same
    result; and over the rounds [0 .. 2*total-1] the results are the
    positions of the workers in committee order, listed twice. *)
Theorem TransactionSchedulerIdx_round_robin (c : Committee) (round : Z) :
  slice_len_ok (Members c) ->
  is_uint64 round ->
  1 <= worker_total c ->
  (exists idx member,
     TransactionSchedulerIdx c round = Returns (idx, None) /\
     0 <= idx < Z.of_nat (length (Members c)) /\
     Members c !! Z.to_nat idx = Some member /\
     NodeRole member = RoleWorker /\
     Z.of_nat (length (List.filter is_worker (take (Z.to_nat idx) (Members c))))
     = round mod worker_total c) /\
  (forall round' : Z,
     is_uint64 round' ->
     round' mod worker_total c = round mod worker_total c ->
     TransactionSchedulerIdx c round' = TransactionSchedulerIdx c round) /\
  (is_uint64 (round + worker_total c) ->
   TransactionSchedulerIdx c (round + worker_total c)
   = TransactionSchedulerIdx c round) /\
  TransactionSchedulerIdx c <$> seqZ 0 (2 * worker_total c)
  = (fun idx => Returns (idx, None)) <$> (worker_indices c ++ worker_indices c).
Proof.
  intros Hlen Hround Htotal.
  assert (forall round' : Z,
            round' mod worker_total c = round mod worker_total c ->
            TransactionSchedulerIdx c round' = TransactionSchedulerIdx c round)
    as Hperiod.
  { intros round' Hmod.
    destruct (worker_indices_lookup_mod c round Htotal) as [idx Hidx].
    rewrite (TransactionSchedulerIdx_lookup c round idx) by done.
    apply TransactionSchedulerIdx_lookup; try done. by rewrite Hmod. }
  split; [|split; [|split]].
  - by apply TransactionSchedulerIdx_worker.
  - intros round' _. apply Hperiod.
  - intros _. apply Hperiod.
    rewrite <- (Z.mul_1_l (worker_total c)) at 1. apply Z.mod_add. lia.
  - by apply TransactionSchedulerIdx_two_periods.
Qed.

Lemma TransactionSchedulerIdx_round_robin_witness :
  (exists idx member,
     TransactionSchedulerIdx example_committee 5 = Returns (idx, None) /\
     0 <= idx < Z.of_nat (length (Members example_committee)) /\
     Members example_committee !! Z.to_nat idx = Some member /\
     NodeRole member = RoleWorker /\
     Z.of_nat (length (List.filter is_worker
                         (take (Z.to_nat idx) (Members example_committee))))
     = 5 mod worker_total example_committee) /\
  (forall round' : Z,
     is_uint64 round' ->
     round' mod worker_total example_committee = 5 mod worker_total example_committee ->
     TransactionSchedulerIdx example_committee round'
     = TransactionSchedulerIdx example_committee 5) /\
  (is_uint64 (5 + worker_total example_committee) ->
   TransactionSchedulerIdx example_committee (5 + worker_total example_committee)
   = TransactionSchedulerIdx example_committee 5) /\
  TransactionSchedulerIdx example_committee
    <$> seqZ 0 (2 * worker_total example_committee)
  = (fun idx => Returns (idx, None))
    <$> (worker_indices example_committee ++ worker_indices example_committee).
Proof.
  apply (TransactionSchedulerIdx_round_robin example_committee 5).
  - unfold slice_len_ok, MaxInt64. simpl. lia.
  - unfold is_uint64, u64_modulus. lia.
  - unfold worker_total. simpl. lia.
Defined.

(** C4: on a committee with no Worker member (an empty committee
    included) [TransactionSchedulerIdx] fails with the no-workers error,
    whatever the round. *)
Theorem TransactionSchedulerIdx_fails_without_workers (c : Committee) (round : Z) :
  worker_total c = 0 ->
  TransactionSchedulerIdx c round = Returns (0, Some ErrNoWorkers).
Proof. apply TransactionSchedulerIdx_no_workers. Qed.

Lemma TransactionSchedulerIdx_fails_without_workers_witness :
  TransactionSchedulerIdx
    (mkCommittee KindComputeExecutor
       [mkCommitteeNode RoleBackupWorker "B"; mkCommitteeNode RoleInvalid "I"]
       "runtime" 1) 7
  = Returns (0, Some ErrNoWorkers)
  /\ TransactionSchedulerIdx (mkCommittee KindComputeExecutor [] "runtime" 1) 7
     = Returns (0, Some ErrNoWorkers).
Proof.
  split; apply TransactionSchedulerIdx_fails_without_workers; reflexivity.
Defined.

Lemma index_members_lookup (members : list CommitteeNode) (idx : Z) (member : CommitteeNode) :
  0 <= idx ->
  members !! Z.to_nat idx = Some member ->
  index_members members idx = Returns member.
Proof.
  intros Hpos Hlook. unfold index_members.
  destruct (Z.ltb_spec idx 0) as [?|_]; [lia|]. by rewrite Hlook.
Qed.

Example TransactionScheduler_example :
  TransactionScheduler example_committee 0
  = Returns (Some (mkCommitteeNode RoleWorker "A"), None) /\
  TransactionScheduler example_committee 1
  = Returns (Some (mkCommitteeNode RoleWorker "C"), None) /\
  TransactionScheduler example_committee 2
  = Returns (Some (mkCommitteeNode RoleWorker "A"), None).
Proof. repeat split. Qed.

(** C5: for a committee with at least one Worker member and any round,
    [TransactionScheduler] succeeds and the node it returns is a member
    whose role is Worker; on the committee
    [{Worker,A}; {BackupWorker,B}; {Worker,C}] the rounds 0, 1 and 2
    select A, C and A. *)
Theorem TransactionScheduler_selects_worker (c : Committee) (round : Z) :
  slice_len_ok (Members c) ->
  is_uint64 round ->
  1 <= worker_total c ->
  (exists member,
     TransactionScheduler c round = Returns (Some member, None) /\
     member ∈ Members c /\
     NodeRole member = RoleWorker) /\
  TransactionScheduler example_committee 0
  = Returns (Some (mkCommitteeNode RoleWorker "A"), None) /\
  TransactionScheduler example_committee 1
  = Returns (Some (mkCommitteeNode RoleWorker "C"), None) /\
  TransactionScheduler example_committee 2
  = Returns (Some (mkCommitteeNode RoleWorker "A"), None).
Proof.
  intros Hlen _ Htotal. split; [|exact TransactionScheduler_example].
  destruct (TransactionSchedulerIdx_worker c round Hlen Htotal)
    as (idx & member & Hrun & Hidx & Hlook & Hrole & _).
  exists member. unfold TransactionScheduler. rewrite Hrun.
  rewrite (index_members_lookup _ _ member) by (done || lia).
  split; [done|]. split; [|done]. by eapply list_elem_of_lookup_2.
Qed.

Lemma TransactionScheduler_selects_worker_witness :
  (exists member,
     TransactionScheduler example_committee 1 = Returns (Some member, None) /\
     member ∈ Members example_committee /\
     NodeRole member = RoleWorker) /\
  TransactionScheduler example_committee 0
  = Returns (Some (mkCommitteeNode RoleWorker "A"), None) /\
  TransactionScheduler example_committee 1
  = Returns (Some (mkCommitteeNode RoleWorker "C"), None) /\
  TransactionScheduler example_committee 2
  = Returns (Some (mkCommitteeNode RoleWorker "A"), None).
Proof.
  apply (TransactionScheduler_selects_worker example_committee 1).
  - unfold slice_len_ok, MaxInt64. simpl. lia.
  - unfold is_uint64, u64_modulus. lia.
  - unfold worker_total. simpl. lia.
Defined.

(** C9: [TransactionSchedulerIdx] never panics: the modulo by [total] is
    evaluated only at a Worker member, and then [total] is at least one.
    For every committee and round it returns either a valid index with no
    error, or the no-workers error. *)
Theorem TransactionSchedulerIdx_total (c : Committee) (round : Z) :
  slice_len_ok (Members c) ->
  is_uint64 round ->
  (forall p : panic, TransactionSchedulerIdx c round <> Panics p) /\
  ((exists idx,
      TransactionSchedulerIdx c round = Returns (idx, None) /\
      0 <= idx < Z.of_nat (length (Members c)))
   \/ TransactionSchedulerIdx c round = Returns (0, Some ErrNoWorkers)).
Proof.
  intros Hlen _.
  destruct (decide (worker_total c = 0)) as [Hzero|Hpos].
  - rewrite (TransactionSchedulerIdx_no_workers c round Hzero).
    split; [done|]. by right.
  - assert (1 <= worker_total c) as Htotal by (unfold worker_total in *; lia).
    destruct (TransactionSchedulerIdx_worker c round Hlen Htotal)
      as (idx & member & Hrun & Hidx & _).
    rewrite Hrun. split; [done|]. left. by exists idx.
Qed.

Lemma TransactionSchedulerIdx_total_witness :
  (forall p : panic, TransactionSchedulerIdx example_committee 3 <> Panics p) /\
  ((exists idx,
      TransactionSchedulerIdx example_committee 3 = Returns (idx, None) /\
      0 <= idx < Z.of_nat (length (Members example_committee)))
   \/ TransactionSchedulerIdx example_committee 3 = Returns (0, Some ErrNoWorkers)).
Proof.
  apply (TransactionSchedulerIdx_total example_committee 3).
  - unfold slice_len_ok, MaxInt64. simpl. lia.
  - unfold is_uint64, u64_modulus. lia.
Defined.

(** ** The members hash *)

(** The hash reads nothing but [Members]: committees with the same
    member sequence have the same hash, whatever their other fields. *)
Lemma EncodedMembersHash_members {Hash : Type} (hash_NewFrom : list CommitteeNode -> Hash)
    (c1 c2 : Committee) :
  Members c1 = Members c2 ->
  EncodedMembersHash hash_NewFrom c1 = EncodedMembersHash hash_NewFrom c2.
Proof. unfold EncodedMembersHash. by intros ->. Qed.

(** ** Voting power *)

Lemma Int64_small (x : Z) : MinInt64 <= x <= MaxInt64 -> big.Int64 x = x.
Proof.
  unfold big.Int64, MinInt64, MaxInt64, u64_modulus. intros H.
  rewrite Z.mod_small by lia. lia.
Qed.

Lemma VotingPowerFromStake_with_cases (unit stake : quantity.Quantity) :
  quantity.IsValid stake ->
  quantity.IsValid unit ->
  (quantity.inner unit = 0 ->
   VotingPowerFromStake_with unit stake
   = (0, Some (ErrQuo stake unit quantity.ErrInvalidArgument))) /\
  (quantity.inner unit <> 0 ->
   quantity.inner stake / quantity.inner unit = 0 ->
   VotingPowerFromStake_with unit stake = (1, None)) /\
  (quantity.inner unit <> 0 ->
   MaxInt64 < quantity.inner stake / quantity.inner unit ->
   VotingPowerFromStake_with unit stake
   = (0, Some (ErrTooManyBaseUnits
                 (quantity.mkQuantity (quantity.inner stake / quantity.inner unit))))) /\
  (quantity.inner unit <> 0 ->
   1 <= quantity.inner stake / quantity.inner unit <= MaxInt64 ->
   VotingPowerFromStake_with unit stake
   = (quantity.inner stake / quantity.inner unit, None)).
Proof.
  unfold quantity.IsValid. intros Hstake Hunit.
  unfold VotingPowerFromStake_with, quantity.Quo, quantity.Clone, quantity.IsZero,
    quantity.ToBigInt, big.IsInt64. simpl.
  repeat split.
  - intros ->. simpl. by destruct stake.
  - intros Hne Hq. destruct (Z.eqb_spec (quantity.inner unit) 0); [done|].
    simpl. by rewrite Hq.
  - intros Hne Hq. destruct (Z.eqb_spec (quantity.inner unit) 0); [done|].
    simpl. destruct (Z.eqb_spec (quantity.inner stake / quantity.inner unit) 0);
      [unfold MaxInt64 in Hq; lia|].
    destruct (Z.leb_spec (quantity.inner stake / quantity.inner unit) MaxInt64); [lia|].
    by rewrite andb_false_r.
  - intros Hne Hq. destruct (Z.eqb_spec (quantity.inner unit) 0); [done|].
    simpl. destruct (Z.eqb_spec (quantity.inner stake / quantity.inner unit) 0); [lia|].
    destruct (Z.leb_spec (quantity.inner stake / quantity.inner unit) MaxInt64); [|lia].
    destruct (Z.leb_spec MinInt64 (quantity.inner stake / quantity.inner unit));
      [|unfold MinInt64 in *; lia].
    simpl. rewrite Int64_small; [done|lia].
Qed.

Example VotingPowerFromStake_examples :
  VotingPowerFromStake (quantity.mkQuantity 0) = (1, None) /\
  VotingPowerFromStake (quantity.mkQuantity 5) = (1, None) /\
  VotingPowerFromStake (quantity.mkQuantity 160) = (10, None) /\
  VotingPowerFromStake_with (quantity.mkQuantity 1) (quantity.mkQuantity (2 ^ 70))
  = (0, Some (ErrTooManyBaseUnits (quantity.mkQuantity (2 ^ 70)))).
Proof. repeat split. Qed.

(** C2: for a non-negative stake, [VotingPowerFromStake] computes the
    floor quotient [q] of the stake by the unit: a zero unit is a
    division error, [q = 0] gives 1, a [q] above the signed 64-bit range
    is an overflow error, and any other [q] is returned.  The unit is
    16; stakes 0 and 5 give 1, stake 160 gives 10, and stake 2^70 with
    unit 1 overflows. *)
Theorem VotingPowerFromStake_floor_quotient (unit stake : quantity.Quantity) :
  quantity.IsValid stake ->
  quantity.IsValid unit ->
  BaseUnitsPerVotingPower = quantity.mkQuantity 16 /\
  VotingPowerFromStake stake
  = VotingPowerFromStake_with (quantity.mkQuantity 16) stake /\
  (quantity.inner unit = 0 ->
   VotingPowerFromStake_with unit stake
   = (0, Some (ErrQuo stake unit quantity.ErrInvalidArgument))) /\
  (quantity.inner unit <> 0 ->
   quantity.inner stake / quantity.inner unit = 0 ->
   VotingPowerFromStake_with unit stake = (1, None)) /\
  (quantity.inner unit <> 0 ->
   MaxInt64 < quantity.inner stake / quantity.inner unit ->
   VotingPowerFromStake_with unit stake
   = (0, Some (ErrTooManyBaseUnits
                 (quantity.mkQuantity (quantity.inner stake / quantity.inner unit))))) /\
  (quantity.inner unit <> 0 ->
   1 <= quantity.inner stake / quantity.inner unit <= MaxInt64 ->
   VotingPowerFromStake_with unit stake
   = (quantity.inner stake / quantity.inner unit, None)) /\
  VotingPowerFromStake (quantity.mkQuantity 0) = (1, None) /\
  VotingPowerFromStake (quantity.mkQuantity 5) = (1, None) /\
  VotingPowerFromStake (quantity.mkQuantity 160) = (10, None) /\
  VotingPowerFromStake_with (quantity.mkQuantity 1) (quantity.mkQuantity (2 ^ 70))
  = (0, Some (ErrTooManyBaseUnits (quantity.mkQuantity (2 ^ 70)))).
Proof.
  intros Hstake Hunit.
  destruct (VotingPowerFromStake_with_cases unit stake Hstake Hunit)
    as (Hzero & Hone & Hover & Hquot).
  destruct VotingPowerFromStake_examples as (E0 & E5 & E160 & E70).
  repeat split; assumption.
Qed.

Lemma VotingPowerFromStake_floor_quotient_witness :
  quantity.IsValid (quantity.mkQuantity 160) /\
  quantity.IsValid BaseUnitsPerVotingPower /\
  VotingPowerFromStake_with BaseUnitsPerVotingPower (quantity.mkQuantity 160)
  = (160 / 16, None).
Proof.
  assert (quantity.IsValid (quantity.mkQuantity 160)) as Hstake
    by (unfold quantity.IsValid; simpl; lia).
  assert (quantity.IsValid BaseUnitsPerVotingPower) as Hunit
    by (unfold quantity.IsValid; simpl; lia).
  split; [exact Hstake|]. split; [exact Hunit|].
  destruct (VotingPowerFromStake_floor_quotient BaseUnitsPerVotingPower
              (quantity.mkQuantity 160) Hstake Hunit)
    as (_ & _ & _ & _ & _ & Hquot & _).
  apply Hquot.
  - simpl. lia.
  - vm_compute. split; discriminate.
Defined.

Lemma VotingPowerFromStake_with_positive (unit stake : quantity.Quantity) (power : Z) :
  quantity.IsValid stake ->
  quantity.IsValid unit ->
  VotingPowerFromStake_with unit stake = (power, None) ->
  1 <= power <= MaxInt64.
Proof.
  intros Hstake Hunit.
  destruct (VotingPowerFromStake_with_cases unit stake Hstake Hunit)
    as (Hzero & Hone & Hover & Hquot).
  unfold quantity.IsValid in *.
  destruct (decide (quantity.inner unit = 0)) as [Hu|Hu].
  { rewrite Hzero by done. discriminate. }
  pose proof (Z.div_pos (quantity.inner stake) (quantity.inner unit)
                ltac:(lia) ltac:(lia)) as Hq.
  destruct (decide (quantity.inner stake / quantity.inner unit = 0)) as [Hq0|Hq0].
  { rewrite Hone by done. intros [= <-]. unfold MaxInt64. lia. }
  destruct (decide (MaxInt64 < quantity.inner stake / quantity.inner unit)) as [Hbig|Hbig].
  { rewrite Hover by done. discriminate. }
  rewrite Hquot by lia. intros [= <-]. lia.
Qed.

(** C10: when [VotingPowerFromStake] succeeds on a non-negative stake,
    the power it returns is at least 1. *)
Theorem VotingPowerFromStake_at_least_one (stake : quantity.Quantity) (power : Z) :
  quantity.IsValid stake ->
  VotingPowerFromStake stake = (power, None) ->
  1 <= power.
Proof.
  intros Hstake Hrun.
  apply (VotingPowerFromStake_with_positive BaseUnitsPerVotingPower stake power);
    [done| |done].
  unfold quantity.IsValid. simpl. lia.
Qed.

Lemma VotingPowerFromStake_at_least_one_witness :
  VotingPowerFromStake (quantity.mkQuantity 160) = (10, None) /\ 1 <= 10.
Proof.
  split; [reflexivity|].
  apply (VotingPowerFromStake_at_least_one (quantity.mkQuantity 160) 10).
  - unfold quantity.IsValid. simpl. lia.
  - reflexivity.
Defined.

(** ** Text codecs *)


Lemma Role_UnmarshalText_other (r0 : Role) (text : string) :
  text <> RoleWorkerName ->
  text <> RoleBackupWorkerName ->
  Role_UnmarshalText r0 text = (r0, Some (ErrInvalidRoleText text)).
Proof.
  intros Hw Hb. unfold Role_UnmarshalText.
  destruct (String.eqb_spec text RoleWorkerName); [done|].
  by destruct (String.eqb_spec text RoleBackupWorkerName).
Qed.

Lemma CommitteeKind_UnmarshalText_other (k0 : CommitteeKind) (text : string) :
  text <> KindComputeExecutorName ->
  CommitteeKind_UnmarshalText k0 text = (k0, Some (ErrInvalidRoleText text)).
Proof.
  intros He. unfold CommitteeKind_UnmarshalText.
  by destruct (String.eqb_spec text KindComputeExecutorName).
Qed.

(** C3, as stated, fails on the Invalid value of either type: it is
    encoded as ["invalid"], and the decoder rejects that text. *)
Lemma text_codec_roundtrip_fails_on_invalid :
  RoleInvalid ∈ defined_roles /\
  Role_MarshalText RoleInvalid = ("invalid"%string, None) /\
  Role_UnmarshalText RoleWorker "invalid"
  = (RoleWorker, Some (ErrInvalidRoleText "invalid")) /\
  ~ Role_roundtrips RoleInvalid /\
  KindInvalid ∈ defined_kinds /\
  CommitteeKind_MarshalText KindInvalid = ("invalid"%string, None) /\
  CommitteeKind_UnmarshalText KindComputeExecutor "invalid"
  = (KindComputeExecutor, Some (ErrInvalidRoleText "invalid")) /\
  ~ CommitteeKind_roundtrips KindInvalid.
Proof.
  split; [apply list_elem_of_here|]. split; [reflexivity|]. split; [reflexivity|].
  split; [intros [_ H]; specialize (H RoleWorker); discriminate H|].
  split; [apply list_elem_of_here|]. split; [reflexivity|]. split; [reflexivity|].
  intros [_ H]. specialize (H KindComputeExecutor). discriminate H.
Qed.

(** C3, amended: every defined value of [Role] and of [CommitteeKind] is
    encoded without error; Worker, BackupWorker and ComputeExecutor
    survive encoding then decoding; and decoding any text other than
    ["worker"] and ["backup-worker"] (for a role) or ["executor"] (for a
    kind) fails with an error that carries the text and leaves the
    receiver as it was.  The text ["invalid"], which encodes the Invalid
    value of both types, is among the rejected ones. *)
Theorem text_codec_roundtrip_valid (r0 : Role) (k0 : CommitteeKind) (text : string) :
  (forall r : Role, r ∈ defined_roles -> snd (Role_MarshalText r) = None) /\
  (forall k : CommitteeKind, k ∈ defined_kinds ->
     snd (CommitteeKind_MarshalText k) = None) /\
  Role_roundtrips RoleWorker /\
  Role_roundtrips RoleBackupWorker /\
  CommitteeKind_roundtrips KindComputeExecutor /\
  (text <> RoleWorkerName ->
   text <> RoleBackupWorkerName ->
   Role_UnmarshalText r0 text = (r0, Some (ErrInvalidRoleText text))) /\
  (text <> KindComputeExecutorName ->
   CommitteeKind_UnmarshalText k0 text = (k0, Some (ErrInvalidRoleText text))) /\
  Role_UnmarshalText r0 (fst (Role_MarshalText RoleInvalid))
  = (r0, Some (ErrInvalidRoleText RoleInvalidName)) /\
  CommitteeKind_UnmarshalText k0 (fst (CommitteeKind_MarshalText KindInvalid))
  = (k0, Some (ErrInvalidRoleText KindInvalidName)).
Proof.
  split.
  { intros r Hr. unfold defined_roles in Hr.
    repeat (apply elem_of_cons in Hr as [->|Hr]; [reflexivity|]).
    by apply elem_of_nil in Hr. }
  split.
  { intros k Hk. unfold defined_kinds in Hk.
    repeat (apply elem_of_cons in Hk as [->|Hk]; [reflexivity|]).
    by apply elem_of_nil in Hk. }
  split; [by split|]. split; [by split|]. split; [by split|].
  split; [apply Role_UnmarshalText_other|].
  split; [apply CommitteeKind_UnmarshalText_other|].
  split; reflexivity.
Qed.

Lemma text_codec_roundtrip_valid_witness :
  Role_UnmarshalText RoleBackupWorker "Worker"
  = (RoleBackupWorker, Some (ErrInvalidRoleText "Worker")) /\
  CommitteeKind_UnmarshalText KindInvalid "worker"
  = (KindInvalid, Some (ErrInvalidRoleText "worker")).
Proof.
  destruct (text_codec_roundtrip_valid RoleBackupWorker KindInvalid "Worker")
    as (_ & _ & _ & _ & _ & Hrole & _).
  destruct (text_codec_roundtrip_valid RoleBackupWorker KindInvalid "worker")
    as (_ & _ & _ & _ & _ & _ & Hkind & _).
  split.
  - apply Hrole; discriminate.
  - apply Hkind; discriminate.
Defined.

(** ** Consensus parameter changes *)

(** C7: [Apply] stores the change's [MinValidators] when it is present
    and its [MaxValidators] when it is present, keeps the parameter of an
    absent field, and keeps every other field of the parameters. *)
Theorem Apply_frame (c : ConsensusParameterChanges) (params : ConsensusParameters) :
  MinValidators (fst (Apply c params))
  = match NewMinValidators c with
    | Some v => v
    | None => MinValidators params
    end /\
  MaxValidators (fst (Apply c params))
  = match NewMaxValidators c with
    | Some v => v
    | None => MaxValidators params
    end /\
  MaxValidatorsPerEntity (fst (Apply c params)) = MaxValidatorsPerEntity params /\
  DebugBypassStake (fst (Apply c params)) = DebugBypassStake params /\
  RewardFactorEpochElectionAny (fst (Apply c params))
  = RewardFactorEpochElectionAny params /\
  DebugForceElect (fst (Apply c params)) = DebugForceElect params /\
  DebugAllowWeakAlpha (fst (Apply c params)) = DebugAllowWeakAlpha params.
Proof.
  unfold Apply. destruct c as [[newMin|] [newMax|]]; simpl; repeat split.
Qed.


(** C8: [Apply] returns no error on any input, and it does not keep
    [MinValidators <= MaxValidators]: a change of the minimum alone turns
    a consistent pair into an inconsistent one, and the call succeeds. *)
Theorem Apply_never_fails :
  (forall (c : ConsensusParameterChanges) (params : ConsensusParameters),
     snd (Apply c params) = None) /\
  MinValidators consistent_params <= MaxValidators consistent_params /\
  snd (Apply raise_minimum consistent_params) = None /\
  MinValidators (fst (Apply raise_minimum consistent_params)) = 200 /\
  MaxValidators (fst (Apply raise_minimum consistent_params)) = 100 /\
  MaxValidators (fst (Apply raise_minimum consistent_params))
  < MinValidators (fst (Apply raise_minimum consistent_params)).
Proof.
  split; [reflexivity|]. simpl. repeat split; lia.
Qed.

(** * Further properties of the scheduler package *)

(** ** Text codecs, decoding first *)

Example Role_String_examples :
  Role_String RoleBackupWorker = "backup-worker"%string /\
  Role_String 7 = "[unknown role: 7]"%string /\
  Role_String 255 = "[unknown role: 255]"%string /\
  CommitteeKind_String 2 = "[unknown kind: 2]"%string.
Proof. repeat split; vm_compute; reflexivity. Qed.

Lemma append_char_inj (s1 s2 : string) (a : ascii) :
  s1 +:+ String a "" = s2 +:+ String a "" -> s1 = s2.
Proof.
  revert s2. induction s1 as [|b s1 IH]; intros [|b' s2] H; simpl in H.
  - done.
  - injection H as _ H. by destruct s2.
  - injection H as _ H. by destruct s1.
  - injection H as -> H. f_equal. by apply IH.
Qed.

(** X1: when [Role.UnmarshalText] succeeds, the role it stores is Worker
    or BackupWorker, and encoding that role gives back the decoded text. *)
Theorem Role_UnmarshalText_MarshalText (r0 r : Role) (text : string) :
  Role_UnmarshalText r0 text = (r, None) ->
  (r = RoleWorker \/ r = RoleBackupWorker) /\
  Role_MarshalText r = (text, None).
Proof.
  unfold Role_UnmarshalText.
  destruct (String.eqb_spec text RoleWorkerName) as [->|_].
  { intros [= <-]. split; [by left|reflexivity]. }
  destruct (String.eqb_spec text RoleBackupWorkerName) as [->|_].
  { intros [= <-]. split; [by right|reflexivity]. }
  discriminate.
Qed.

Lemma Role_UnmarshalText_MarshalText_witness :
  (RoleBackupWorker = RoleWorker \/ RoleBackupWorker = RoleBackupWorker) /\
  Role_MarshalText RoleBackupWorker = ("backup-worker"%string, None).
Proof.
  apply (Role_UnmarshalText_MarshalText RoleInvalid RoleBackupWorker "backup-worker").
  reflexivity.
Defined.

(** X2: when [CommitteeKind.UnmarshalText] succeeds, the kind it stores
    is ComputeExecutor, and encoding it gives back the decoded text. *)
Theorem CommitteeKind_UnmarshalText_MarshalText (k0 k : CommitteeKind) (text : string) :
  CommitteeKind_UnmarshalText k0 text = (k, None) ->
  k = KindComputeExecutor /\
  CommitteeKind_MarshalText k = (text, None).
Proof.
  unfold CommitteeKind_UnmarshalText.
  destruct (String.eqb_spec text KindComputeExecutorName) as [->|_].
  { intros [= <-]. split; reflexivity. }
  discriminate.
Qed.

Lemma CommitteeKind_UnmarshalText_MarshalText_witness :
  KindComputeExecutor = KindComputeExecutor /\
  CommitteeKind_MarshalText KindComputeExecutor = ("executor"%string, None).
Proof.
  apply (CommitteeKind_UnmarshalText_MarshalText KindInvalid KindComputeExecutor "executor").
  reflexivity.
Defined.

(** X3: [MarshalText] succeeds on exactly the declared values of [Role]
    and of [CommitteeKind]; any other value of the underlying integer
    type is an error. *)
Theorem MarshalText_succeeds_iff_defined (r : Role) (k : CommitteeKind) :
  (snd (Role_MarshalText r) = None <-> r ∈ defined_roles) /\
  (snd (CommitteeKind_MarshalText k) = None <-> k ∈ defined_kinds).
Proof.
  unfold Role_MarshalText, CommitteeKind_MarshalText, defined_roles, defined_kinds.
  rewrite !elem_of_cons, !elem_of_nil. split.
  - destruct (Z.eqb_spec r RoleInvalid); [tauto|].
    destruct (Z.eqb_spec r RoleWorker); [tauto|].
    destruct (Z.eqb_spec r RoleBackupWorker); [tauto|].
    simpl. split; [discriminate|tauto].
  - destruct (Z.eqb_spec k KindInvalid); [tauto|].
    destruct (Z.eqb_spec k KindComputeExecutor); [tauto|].
    simpl. split; [discriminate|tauto].
Qed.

(** X4: [Role.String] tells any two role values apart, the undeclared
    ones included. *)
Theorem Role_String_inj (r1 r2 : Role) :
  Role_String r1 = Role_String r2 -> r1 = r2.
Proof.
  unfold Role_String, Sprintf_d.
  destruct (Z.eqb_spec r1 RoleInvalid) as [->|?];
    [|destruct (Z.eqb_spec r1 RoleWorker) as [->|?];
      [|destruct (Z.eqb_spec r1 RoleBackupWorker) as [->|?]]];
  (destruct (Z.eqb_spec r2 RoleInvalid) as [->|?];
    [|destruct (Z.eqb_spec r2 RoleWorker) as [->|?];
      [|destruct (Z.eqb_spec r2 RoleBackupWorker) as [->|?]]]);
  simpl; intros H; try done; try discriminate H.
  simplify_eq. apply append_char_inj in H. by apply (inj pretty) in H.
Qed.

Lemma Role_String_inj_witness : RoleWorker = 1.
Proof. apply (Role_String_inj RoleWorker 1). reflexivity. Defined.

(** X5: [CommitteeKind.String] tells any two kind values apart. *)
Theorem CommitteeKind_String_inj (k1 k2 : CommitteeKind) :
  CommitteeKind_String k1 = CommitteeKind_String k2 -> k1 = k2.
Proof.
  unfold CommitteeKind_String, Sprintf_d.
  destruct (Z.eqb_spec k1 KindInvalid) as [->|?];
    [|destruct (Z.eqb_spec k1 KindComputeExecutor) as [->|?]];
  (destruct (Z.eqb_spec k2 KindInvalid) as [->|?];
    [|destruct (Z.eqb_spec k2 KindComputeExecutor) as [->|?]]);
  simpl; intros H; try done; try discriminate H.
  simplify_eq. apply append_char_inj in H. by apply (inj pretty) in H.
Qed.

Lemma CommitteeKind_String_inj_witness : KindComputeExecutor = 1.
Proof. apply (CommitteeKind_String_inj KindComputeExecutor 1). reflexivity. Defined.

(** X6: on every value that [MarshalText] encodes, the encoded text is
    the value's [String] form, for roles and for kinds. *)
Theorem MarshalText_is_String (r : Role) (k : CommitteeKind) :
  (snd (Role_MarshalText r) = None -> fst (Role_MarshalText r) = Role_String r) /\
  (snd (CommitteeKind_MarshalText k) = None ->
   fst (CommitteeKind_MarshalText k) = CommitteeKind_String k).
Proof.
  unfold Role_MarshalText, Role_String, CommitteeKind_MarshalText, CommitteeKind_String.
  split.
  - destruct (r =? RoleInvalid); [done|]. destruct (r =? RoleWorker); [done|].
    by destruct (r =? RoleBackupWorker).
  - destruct (k =? KindInvalid); [done|]. by destruct (k =? KindComputeExecutor).
Qed.

Lemma MarshalText_is_String_witness :
  fst (Role_MarshalText RoleWorker) = Role_String RoleWorker /\
  fst (CommitteeKind_MarshalText KindInvalid) = CommitteeKind_String KindInvalid.
Proof.
  destruct (MarshalText_is_String RoleWorker KindInvalid) as [Hr Hk].
  split; [apply Hr|apply Hk]; reflexivity.
Defined.

(** ** Forced election roles *)

(** X7: [HasRole] answers true exactly for the roles listed in [Roles];
    in particular it answers false for every role when the list is
    empty. *)
Theorem HasRole_iff_listed (fe : ForceElectCommitteeRole) (role : Role) :
  (HasRole fe role = true <-> role ∈ Roles fe) /\
  (Roles fe = [] -> HasRole fe role = false).
Proof.
  unfold HasRole. split.
  - rewrite existsb_exists, list_elem_of_In. split.
    + intros (r & Hin & Heq). apply Z.eqb_eq in Heq. by subst.
    + intros Hin. exists role. split; [done|]. apply Z.eqb_refl.
  - by intros ->.
Qed.

Lemma HasRole_iff_listed_witness :
  HasRole (mkForceElectCommitteeRole KindComputeExecutor [] true) RoleWorker = false.
Proof.
  destruct (HasRole_iff_listed
              (mkForceElectCommitteeRole KindComputeExecutor [] true) RoleWorker)
    as [_ Hempty].
  apply Hempty. reflexivity.
Defined.

(** ** The rotation, seen from the list of workers *)

Lemma filter_lookup_take (members : list CommitteeNode) (i : nat) (member : CommitteeNode) :
  members !! i = Some member ->
  is_worker member = true ->
  List.filter is_worker members !! length (List.filter is_worker (take i members))
  = Some member.
Proof.
  revert i. induction members as [|m rest IH]; intros i Hlook Hw; [done|].
  destruct i as [|i]; simpl in *.
  - injection Hlook as ->. by rewrite Hw.
  - destruct (is_worker m); simpl; by apply IH.
Qed.

Lemma filter_filter {A : Type} (f : A -> bool) (l : list A) :
  List.filter f (List.filter f l) = List.filter f l.
Proof.
  induction l as [|a l IH]; simpl; [done|].
  destruct (f a) eqn:Ha; simpl; [rewrite Ha; by f_equal|done].
Qed.

Lemma TransactionScheduler_lookup (c : Committee) (round : Z) (member : CommitteeNode) :
  slice_len_ok (Members c) ->
  1 <= worker_total c ->
  List.filter is_worker (Members c) !! Z.to_nat (round mod worker_total c)
  = Some member ->
  TransactionScheduler c round = Returns (Some member, None).
Proof.
  intros Hlen Htotal Hm.
  destruct (TransactionSchedulerIdx_worker c round Hlen Htotal)
    as (idx & m & Hrun & Hidx & Hlook & Hrole & Hcount).
  unfold TransactionScheduler. rewrite Hrun.
  rewrite (index_members_lookup _ _ m) by (done || lia).
  apply filter_lookup_take in Hlook;
    [|unfold is_worker; by apply Z.eqb_eq].
  rewrite <- Hcount, Nat2Z.id in Hm. congruence.
Qed.

Lemma TransactionScheduler_no_workers (c : Committee) (round : Z) :
  worker_total c = 0 ->
  TransactionScheduler c round = Returns (None, Some ErrNoWorkers).
Proof.
  intros Hzero. unfold TransactionScheduler.
  by rewrite TransactionSchedulerIdx_no_workers.
Qed.

Lemma worker_total_workers_only (c : Committee) :
  worker_total (workers_only c) = worker_total c.
Proof. unfold worker_total, workers_only. simpl. by rewrite filter_filter. Qed.

Lemma slice_len_ok_workers_only (c : Committee) :
  slice_len_ok (Members c) -> slice_len_ok (Members (workers_only c)).
Proof.
  unfold slice_len_ok, workers_only. simpl. intros H.
  pose proof (length_filter_le is_worker (Members c)). lia.
Qed.

(** X8: the scheduler of a round is the entry number [round mod total]
    of the list of Worker members taken in committee order. *)
Theorem TransactionScheduler_indexes_workers (c : Committee) (round : Z) :
  slice_len_ok (Members c) ->
  is_uint64 round ->
  1 <= worker_total c ->
  exists member,
    List.filter is_worker (Members c) !! Z.to_nat (round mod worker_total c)
    = Some member /\
    TransactionScheduler c round = Returns (Some member, None).
Proof.
  intros Hlen _ Htotal.
  assert (is_Some (List.filter is_worker (Members c)
                     !! Z.to_nat (round mod worker_total c))) as [member Hm].
  { apply lookup_lt_is_Some.
    pose proof (Z.mod_pos_bound round (worker_total c) ltac:(lia)).
    unfold worker_total in *. lia. }
  exists member. split; [done|]. by apply TransactionScheduler_lookup.
Qed.

Lemma TransactionScheduler_indexes_workers_witness :
  exists member,
    List.filter is_worker (Members example_committee)
      !! Z.to_nat (3 mod worker_total example_committee)
    = Some member /\
    TransactionScheduler example_committee 3 = Returns (Some member, None).
Proof.
  apply (TransactionScheduler_indexes_workers example_committee 3).
  - unfold slice_len_ok, MaxInt64. simpl. lia.
  - unfold is_uint64, u64_modulus. lia.
  - unfold worker_total. simpl. lia.
Defined.

(** X9: members that are not workers have no influence on the node
    selected: removing them all from the committee leaves the result of
    [TransactionScheduler] unchanged, for every round. *)
Theorem TransactionScheduler_workers_only (c : Committee) (round : Z) :
  slice_len_ok (Members c) ->
  TransactionScheduler (workers_only c) round = TransactionScheduler c round.
Proof.
  intros Hlen. destruct (decide (worker_total c = 0)) as [Hzero|Hpos].
  - rewrite !TransactionScheduler_no_workers; try done.
    by rewrite worker_total_workers_only.
  - assert (1 <= worker_total c) as Htotal by (unfold worker_total in *; lia).
    assert (is_Some (List.filter is_worker (Members c)
                       !! Z.to_nat (round mod worker_total c))) as [member Hm].
    { apply lookup_lt_is_Some.
      pose proof (Z.mod_pos_bound round (worker_total c) ltac:(lia)).
      unfold worker_total in *. lia. }
    rewrite (TransactionScheduler_lookup c round member) by done.
    apply TransactionScheduler_lookup.
    + by apply slice_len_ok_workers_only.
    + by rewrite worker_total_workers_only.
    + rewrite worker_total_workers_only. unfold workers_only. simpl.
      by rewrite filter_filter.
Qed.

Lemma TransactionScheduler_workers_only_witness :
  TransactionScheduler (workers_only example_committee) 1
  = TransactionScheduler example_committee 1.
Proof.
  apply (TransactionScheduler_workers_only example_committee 1).
  unfold slice_len_ok, MaxInt64. simpl. lia.
Defined.



Lemma rotate_Permutation {A : Type} (n : nat) (l : list A) : rotate n l ≡ₚ l.
Proof.
  unfold rotate. rewrite Permutation_app_comm. by rewrite take_drop.
Qed.

(** X11: any window of [total] consecutive rounds schedules every worker
    exactly once: the indices returned over the window are the worker
    positions in committee order, rotated to start at the worker of the
    window's first round. *)
Theorem TransactionSchedulerIdx_window (c : Committee) (start : Z) :
  slice_len_ok (Members c) ->
  1 <= worker_total c ->
  is_uint64 start ->
  start + worker_total c <= u64_modulus ->
  TransactionSchedulerIdx c <$> seqZ start (worker_total c)
  = (fun idx => Returns (idx, None))
    <$> rotate (Z.to_nat (start mod worker_total c)) (worker_indices c) /\
  TransactionSchedulerIdx c <$> seqZ start (worker_total c)
  ≡ₚ (fun idx => Returns (idx, None)) <$> worker_indices c.
Proof.
  intros Hlen Htotal _ _. pose proof (length_worker_indices c) as Hwi.
  assert (TransactionSchedulerIdx c <$> seqZ start (worker_total c)
          = (fun idx => Returns (idx, None))
            <$> rotate (Z.to_nat (start mod worker_total c)) (worker_indices c))
    as Heq.
  { apply list_eq. intros i. rewrite !list_lookup_fmap.
    destruct (decide (Z.of_nat i < worker_total c)) as [Hlt|Hge].
    - rewrite lookup_seqZ_lt by done. simpl.
      rewrite lookup_rotate_r by lia. unfold rotate_nat_add.
      pose proof (Z.mod_pos_bound start (worker_total c) ltac:(lia)) as Hk.
      rewrite Z2Nat.id by lia. rewrite Hwi, Zplus_mod_idemp_l.
      destruct (worker_indices_lookup_mod c (start + Z.of_nat i) Htotal) as [idx Hidx].
      rewrite Hidx. simpl. f_equal. by apply TransactionSchedulerIdx_lookup.
    - rewrite lookup_seqZ_ge by lia.
      rewrite (lookup_ge_None_2 (rotate _ _)) by (rewrite length_rotate; lia).
      done. }
  split; [done|]. rewrite Heq. by rewrite rotate_Permutation.
Qed.

Lemma TransactionSchedulerIdx_window_witness :
  TransactionSchedulerIdx example_committee
    <$> seqZ 7 (worker_total example_committee)
  = (fun idx => Returns (idx, None))
    <$> rotate (Z.to_nat (7 mod worker_total example_committee))
          (worker_indices example_committee) /\
  TransactionSchedulerIdx example_committee
    <$> seqZ 7 (worker_total example_committee)
  ≡ₚ (fun idx => Returns (idx, None)) <$> worker_indices example_committee.
Proof.
  apply (TransactionSchedulerIdx_window example_committee 7).
  - unfold slice_len_ok, MaxInt64. simpl. lia.
  - unfold worker_total. simpl. lia.
  - unfold is_uint64, u64_modulus. lia.
  - unfold worker_total, u64_modulus. simpl. lia.
Defined.

(** X12: with at least two workers, two consecutive rounds never have
    the same scheduler index. *)
Theorem TransactionSchedulerIdx_consecutive_differ (c : Committee) (round : Z) :
  slice_len_ok (Members c) ->
  2 <= worker_total c ->
  is_uint64 round ->
  is_uint64 (round + 1) ->
  TransactionSchedulerIdx c (round + 1) <> TransactionSchedulerIdx c round.
Proof.
  intros Hlen Htotal _ _.
  assert (1 <= worker_total c) as Hone by lia.
  destruct (worker_indices_lookup_mod c round Hone) as [idx Hidx].
  destruct (worker_indices_lookup_mod c (round + 1) Hone) as [idx' Hidx'].
  rewrite (TransactionSchedulerIdx_lookup c round idx) by done.
  rewrite (TransactionSchedulerIdx_lookup c (round + 1) idx') by done.
  intros [= ->].
  pose proof (NoDup_lookup _ _ _ _ (NoDup_worker_indices c) Hidx' Hidx) as Hsame.
  pose proof (Z.mod_pos_bound round (worker_total c) ltac:(lia)).
  pose proof (Z.mod_pos_bound (round + 1) (worker_total c) ltac:(lia)).
  assert ((round + 1) mod worker_total c = round mod worker_total c) as Hmod by lia.
  pose proof (Zminus_mod (round + 1) round (worker_total c)) as Hsub.
  rewrite Hmod, Z.sub_diag, Z.mod_0_l in Hsub by lia.
  replace (round + 1 - round) with 1 in Hsub by lia.
  rewrite Z.mod_small in Hsub by lia. discriminate.
Qed.

Lemma TransactionSchedulerIdx_consecutive_differ_witness :
  TransactionSchedulerIdx example_committee (4 + 1)
  <> TransactionSchedulerIdx example_committee 4.
Proof.
  apply (TransactionSchedulerIdx_consecutive_differ example_committee 4).
  - unfold slice_len_ok, MaxInt64. simpl. lia.
  - unfold worker_total. simpl. lia.
  - unfold is_uint64, u64_modulus. lia.
  - unfold is_uint64, u64_modulus. lia.
Defined.

(** The wrap of the round counter is the exception: with three workers,
    the last round [2^64 - 1] and the round [0] that follows it have the
    same scheduler. *)
Example TransactionSchedulerIdx_wrap_repeats :
  TransactionSchedulerIdx
    (mkCommittee KindComputeExecutor
       [mkCommitteeNode RoleWorker "A"; mkCommitteeNode RoleWorker "B";
        mkCommitteeNode RoleWorker "C"] "runtime" 1)
    (u64_modulus - 1)
  = TransactionSchedulerIdx
      (mkCommittee KindComputeExecutor
         [mkCommitteeNode RoleWorker "A"; mkCommitteeNode RoleWorker "B";
          mkCommitteeNode RoleWorker "C"] "runtime" 1)
      (u64 (u64_modulus - 1 + 1)).
Proof. reflexivity. Qed.

(** ** Voting power, with the configured unit *)

Lemma VotingPowerFromStake_value (stake : quantity.Quantity) :
  quantity.IsValid stake ->
  quantity.inner stake < 2 ^ 67 ->
  VotingPowerFromStake stake = (Z.max 1 (quantity.inner stake / 16), None).
Proof.
  intros Hstake Hlt.
  assert (quantity.IsValid BaseUnitsPerVotingPower) as Hunit
    by (unfold quantity.IsValid; simpl; lia).
  destruct (VotingPowerFromStake_with_cases BaseUnitsPerVotingPower stake Hstake Hunit)
    as (_ & Hone & _ & Hquot).
  unfold quantity.IsValid in Hstake. unfold VotingPowerFromStake.
  change (quantity.inner BaseUnitsPerVotingPower) with 16 in *.
  assert (0 <= quantity.inner stake / 16 < 2 ^ 63) as Hq.
  { split; [apply Z.div_pos; lia|]. apply Z.div_lt_upper_bound; lia. }
  destruct (decide (quantity.inner stake / 16 = 0)) as [Hz|Hnz].
  - rewrite Hone by done. rewrite Hz. done.
  - rewrite Hquot by (unfold MaxInt64; lia). f_equal. lia.
Qed.

Lemma VotingPowerFromStake_overflow (stake : quantity.Quantity) :
  2 ^ 67 <= quantity.inner stake ->
  VotingPowerFromStake stake
  = (0, Some (ErrTooManyBaseUnits (quantity.mkQuantity (quantity.inner stake / 16)))).
Proof.
  intros Hge.
  assert (quantity.IsValid stake) as Hstake by (unfold quantity.IsValid; lia).
  assert (quantity.IsValid BaseUnitsPerVotingPower) as Hunit
    by (unfold quantity.IsValid; simpl; lia).
  destruct (VotingPowerFromStake_with_cases BaseUnitsPerVotingPower stake Hstake Hunit)
    as (_ & _ & Hover & _).
  unfold VotingPowerFromStake.
  change (quantity.inner BaseUnitsPerVotingPower) with 16 in *.
  apply Hover; [done|]. unfold MaxInt64.
  assert (2 ^ 63 <= quantity.inner stake / 16) by (apply Z.div_le_lower_bound; lia).
  lia.
Qed.

(** X13: with the unit 16 that [init] installs, [VotingPowerFromStake]
    succeeds on a non-negative stake exactly when the stake is below
    [2^67]; it then returns the larger of 1 and the floor of stake/16,
    and otherwise fails with the too-many-base-units error, never with a
    division error. *)
Theorem VotingPowerFromStake_succeeds_iff (stake : quantity.Quantity) :
  quantity.IsValid stake ->
  (snd (VotingPowerFromStake stake) = None <-> quantity.inner stake < 2 ^ 67) /\
  (quantity.inner stake < 2 ^ 67 ->
   VotingPowerFromStake stake = (Z.max 1 (quantity.inner stake / 16), None)) /\
  (2 ^ 67 <= quantity.inner stake ->
   VotingPowerFromStake stake
   = (0, Some (ErrTooManyBaseUnits
                 (quantity.mkQuantity (quantity.inner stake / 16))))).
Proof.
  intros Hstake. split; [|split].
  - destruct (decide (quantity.inner stake < 2 ^ 67)) as [Hlt|Hge].
    + rewrite VotingPowerFromStake_value by done. done.
    + rewrite VotingPowerFromStake_overflow by lia. simpl. split; [discriminate|lia].
  - by apply VotingPowerFromStake_value.
  - apply VotingPowerFromStake_overflow.
Qed.

Lemma VotingPowerFromStake_succeeds_iff_witness :
  VotingPowerFromStake (quantity.mkQuantity (2 ^ 67 - 1)) = (2 ^ 63 - 1, None) /\
  VotingPowerFromStake (quantity.mkQuantity (2 ^ 67))
  = (0, Some (ErrTooManyBaseUnits (quantity.mkQuantity (2 ^ 63)))).
Proof.
  assert (quantity.IsValid (quantity.mkQuantity (2 ^ 67 - 1))) as H1
    by (unfold quantity.IsValid; simpl; lia).
  assert (quantity.IsValid (quantity.mkQuantity (2 ^ 67))) as H2
    by (unfold quantity.IsValid; simpl; lia).
  destruct (VotingPowerFromStake_succeeds_iff _ H1) as (_ & Hok & _).
  destruct (VotingPowerFromStake_succeeds_iff _ H2) as (_ & _ & Hfail).
  split.
  - apply Hok. simpl. lia.
  - apply Hfail. simpl. lia.
Defined.

(** X14: voting power is monotone in the stake: of two non-negative
    stakes that both convert, the larger one never gets less power. *)
Theorem VotingPowerFromStake_monotone (stake1 stake2 : quantity.Quantity) (power1 power2 : Z) :
  quantity.IsValid stake1 ->
  quantity.inner stake1 <= quantity.inner stake2 ->
  VotingPowerFromStake stake1 = (power1, None) ->
  VotingPowerFromStake stake2 = (power2, None) ->
  power1 <= power2.
Proof.
  intros Hvalid Hle H1 H2.
  assert (quantity.IsValid stake2) as Hvalid2 by (unfold quantity.IsValid in *; lia).
  destruct (decide (quantity.inner stake2 < 2 ^ 67)) as [Hlt|Hge].
  - rewrite VotingPowerFromStake_value in H1, H2 by (done || lia).
    injection H1 as <-. injection H2 as <-.
    pose proof (Z.div_le_mono (quantity.inner stake1) (quantity.inner stake2) 16
                  ltac:(lia) Hle).
    lia.
  - rewrite VotingPowerFromStake_overflow in H2 by lia. discriminate.
Qed.

Lemma VotingPowerFromStake_monotone_witness : 1 <= 10.
Proof.
  apply (VotingPowerFromStake_monotone
           (quantity.mkQuantity 5) (quantity.mkQuantity 160) 1 10).
  - unfold quantity.IsValid. simpl. lia.
  - simpl. lia.
  - reflexivity.
  - reflexivity.
Defined.

(** ** Composing parameter changes *)

(** X15: applying a change and then a second one has the effect of the
    single change in which the second one's present fields win; so
    applying one change twice is the same as applying it once, and the
    change with no field present leaves the parameters as they are. *)
Theorem Apply_compose (c1 c2 : ConsensusParameterChanges) (params : ConsensusParameters) :
  Apply c2 (fst (Apply c1 params)) = Apply (merge_changes c1 c2) params /\
  Apply c1 (fst (Apply c1 params)) = Apply c1 params /\
  Apply (mkConsensusParameterChanges None None) params = (params, None).
Proof.
  destruct params, c1 as [[min1|] [max1|]], c2 as [[min2|] [max2|]];
    repeat split.
Qed.

(** * Properties of the versioned blobs *)

(** X16: whatever the decoder does, [GetVersion] never reports the
    version 65535: a version is returned only when the decoder succeeds
    and stores a different value, which is then the version returned; a
    blob that decodes to 65535, or in which the decoder leaves the field
    untouched, is rejected with [ErrInvalidVersion]; and every error
    comes with the version 0. *)
Theorem GetVersion_never_sentinel {DecodeError : Type}
    (Unmarshal : string -> cbor.Versioned -> cbor.Versioned * option DecodeError)
    (data : string) (version : Z) (err : option (cbor.version_error DecodeError)) :
  cbor.GetVersion DecodeError Unmarshal data = (version, err) ->
  (err = None ->
   version <> cbor.invalidVersion /\
   Unmarshal data (cbor.mkVersioned cbor.invalidVersion)
   = (cbor.mkVersioned version, None)) /\
  (err <> None -> version = 0) /\
  (err = Some cbor.ErrInvalidVersion <->
   exists blob,
     Unmarshal data (cbor.mkVersioned cbor.invalidVersion) = (blob, None) /\
     cbor.V blob = cbor.invalidVersion).
Proof.
  unfold cbor.GetVersion.
  destruct (Unmarshal data _) as [[v] [derr|]] eqn:Hdec; simpl.
  - intros [= <- <-]. split; [done|]. split; [done|].
    split; [done|]. by intros (blob & [=] & _).
  - destruct (Z.eqb_spec v cbor.invalidVersion) as [->|Hne]; intros [= <- <-].
    + split; [done|]. split; [done|]. split; [|done].
      intros _. by eexists.
    + split; [done|]. split; [done|]. split; [done|].
      intros (blob & [= <-] & Hv). done.
Qed.

Lemma GetVersion_never_sentinel_witness :
  3 <> cbor.invalidVersion /\
  (fun (data : string) (_ : cbor.Versioned) =>
     (cbor.mkVersioned (Z.of_nat (String.length data)), @None unit))
    "abc"%string (cbor.mkVersioned cbor.invalidVersion)
  = (cbor.mkVersioned 3, None).
Proof.
  destruct (GetVersion_never_sentinel
              (fun (data : string) (_ : cbor.Versioned) =>
                 (cbor.mkVersioned (Z.of_nat (String.length data)), @None unit))
              "abc" 3 None eq_refl) as (Hok & _).
  by apply Hok.
Defined.

(** * Properties of the runtime test scenario *)

(** X17: the full name [NewScenario] gives a scenario tells scenario
    names apart, and it is the bare ["runtime"] for the empty name
    only. *)
Theorem NewScenario_fullName_inj (name1 name2 : string) :
  (runtime.NewScenario_fullName name1 = runtime.NewScenario_fullName name2 ->
   name1 = name2) /\
  (runtime.NewScenario_fullName name1 = "runtime"%string <-> name1 = ""%string).
Proof.
  unfold runtime.NewScenario_fullName. split.
  - destruct (String.eqb_spec name1 "") as [->|?],
      (String.eqb_spec name2 "") as [->|?]; simpl; intros H; by simplify_eq.
  - destruct (String.eqb_spec name1 "") as [->|?]; simpl; [done|].
    split; intros H; by simplify_eq.
Qed.

Lemma NewScenario_fullName_inj_witness : "runtime"%string = "runtime"%string.
Proof.
  destruct (NewScenario_fullName_inj "runtime" "runtime") as [Hinj _].
  by apply Hinj.
Defined.

Section EpochTransitions.
Variable E : Type.
Variable BackendVRF : string.
Variable baseEpoch : beacon.EpochTime.

Lemma epochs_set_S (n : nat) :
  runtime.epochs_set baseEpoch (S n)
  = runtime.epochs_set baseEpoch n ++ [u64 (baseEpoch + 1 + Z.of_nat n)].
Proof. unfold runtime.epochs_set. by rewrite seq_S, fmap_app. Qed.

Lemma length_epochs_set (n : nat) : length (runtime.epochs_set baseEpoch n) = n.
Proof. unfold runtime.epochs_set. by rewrite length_fmap, length_seq. Qed.

Lemma consistent_init :
  runtime.consistent baseEpoch (u64 (baseEpoch + 1), []).
Proof. split; simpl; [done|]. f_equal. lia. Qed.

Lemma advances_ret : runtime.advances E baseEpoch (runtime.ret E tt) 0.
Proof. intros st Hst. simpl. repeat split; [apply Hst..|lia|lia]. Qed.

Lemma advances_bind (m n : runtime.run E unit) (k1 k2 : nat) :
  runtime.advances E baseEpoch m k1 ->
  runtime.advances E baseEpoch n k2 ->
  runtime.advances E baseEpoch (runtime.bind E m (fun _ => n)) (k1 + k2).
Proof.
  intros Hm Hn st Hst. unfold runtime.bind.
  destruct (Hm st Hst) as (Hinv & Hle & Heq).
  destruct (m st) as [st' [[]|err|p]]; simpl in *.
  - destruct (Hn st' Hinv) as (Hinv' & Hle' & Heq').
    specialize (Heq eq_refl).
    split; [done|]. split; [lia|]. intros Hok. rewrite Heq' by done. lia.
  - split; [done|]. split; [lia|done].
  - split; [done|]. split; [lia|done].
Qed.

Lemma advances_when (b : bool) (m : runtime.run E unit) (k : nat) :
  runtime.advances E baseEpoch m k ->
  runtime.advances E baseEpoch (runtime.when E b m) (if b then k else 0).
Proof. intros Hm. destruct b; simpl; [done|apply advances_ret]. Qed.

Lemma advances_when_0 (b : bool) (m : runtime.run E unit) :
  runtime.advances E baseEpoch m 0 ->
  runtime.advances E baseEpoch (runtime.when E b m) 0.
Proof. intros Hm. destruct b; simpl; [done|apply advances_ret]. Qed.

Lemma advances_advanceEpoch (net : runtime.Network E) :
  runtime.advances E baseEpoch (runtime.advanceEpoch E net) 1.
Proof.
  intros [epoch trace] [Htrace Hepoch]. simpl in *.
  destruct (runtime.SetEpoch E net epoch); simpl.
  - repeat split; [done|done|lia|done].
  - unfold runtime.consistent. simpl. rewrite !length_app. simpl.
    rewrite Nat.add_1_r. repeat split.
    + rewrite epochs_set_S, <- Htrace. by rewrite Hepoch.
    + rewrite Hepoch, u64_add_l. f_equal. lia.
    + lia.
Qed.

Lemma advances_wait_all (wrap : E -> runtime.scenario_error E)
    (nodes : list (option E)) (noAutoStart : list bool) :
  runtime.advances E baseEpoch (runtime.wait_all E wrap nodes noAutoStart) 0.
Proof.
  intros st Hst. unfold runtime.wait_all.
  destruct (runtime.wait_nodes E nodes noAutoStart 0) as [[err|]|p]; simpl;
    repeat split; try apply Hst; lia.
Qed.

Lemma advances_wait_registered (net : runtime.Network E) :
  runtime.advances E baseEpoch (runtime.wait_registered E net) 0.
Proof.
  intros st Hst. unfold runtime.wait_registered.
  destruct (runtime.WaitNodesRegistered E net); simpl;
    repeat split; try apply Hst; lia.
Qed.

Lemma advances_advance_times (net : runtime.Network E) (n : nat) :
  runtime.advances E baseEpoch (runtime.advance_times E net n) n.
Proof.
  induction n as [|n IH]; simpl; [apply advances_ret|].
  apply (advances_bind _ _ 1 n); [apply advances_advanceEpoch|done].
Qed.

Lemma numSkips_bounds (randByte : Z) : 1 <= runtime.numSkips randByte <= 4.
Proof.
  unfold runtime.numSkips. change 3 with (Z.ones 2).
  rewrite Z.land_ones by lia.
  pose proof (Z.mod_pos_bound randByte (2 ^ 2) ltac:(lia)). lia.
Qed.

Lemma transitions_bounds (sc : runtime.Scenario E) (randByte : Z) :
  (2 <= runtime.transitions E BackendVRF sc randByte <= 8)%nat.
Proof.
  unfold runtime.transitions. pose proof (numSkips_bounds randByte).
  destruct (_ || _), (runtime.debugWeakAlphaOk E sc),
    (runtime.debugNoRandomInitialEpoch E sc); lia.
Qed.
End EpochTransitions.

Lemma advances_body {E : Type} (BackendVRF : string) (sc : runtime.Scenario E)
    (fixture : runtime.NetworkFixture) (randByte : Z) (baseEpoch : beacon.EpochTime) :
  runtime.advances E baseEpoch
    (runtime.initialEpochTransitionsWith_body E BackendVRF sc fixture randByte)
    (runtime.transitions E BackendVRF sc randByte).
Proof.
  assert (runtime.transitions E BackendVRF sc randByte
          = (0 + (1 + (0 + (0 + (1 +
               (if String.eqb (runtime.Backend E (runtime.Net E sc)) ""
                   || String.eqb (runtime.Backend E (runtime.Net E sc)) BackendVRF
                then (if negb (runtime.debugWeakAlphaOk E sc) then 1 + 1 else 0)
                     + (if negb (runtime.debugNoRandomInitialEpoch E sc)
                        then Z.to_nat (runtime.numSkips randByte) else 0)
                else 0))))))%nat) as ->.
  { unfold runtime.transitions.
    destruct (_ || _), (runtime.debugWeakAlphaOk E sc),
      (runtime.debugNoRandomInitialEpoch E sc); simpl; lia. }
  unfold runtime.initialEpochTransitionsWith_body. cbv zeta.
  apply advances_bind.
  { apply advances_when_0. apply (advances_bind _ _ _ _ 0 0); apply advances_wait_all. }
  apply advances_bind; [apply advances_advanceEpoch|].
  apply advances_bind; [apply advances_wait_all|].
  apply advances_bind; [apply advances_when_0, advances_wait_registered|].
  apply advances_bind; [apply advances_advanceEpoch|].
  apply advances_when. apply advances_bind.
  - apply advances_when. apply advances_bind; apply advances_advanceEpoch.
  - apply advances_when. apply advances_advance_times.
Qed.

(** X18: whatever the network answers, when [initialEpochTransitionsWith]
    returns, the epochs it has set are the consecutive epochs after
    [baseEpoch], and the epoch it returns is the next one, not yet set.
    It sets at most as many epochs as an undisturbed run does, and
    exactly that many when it returns no error: two, plus two unless
    weak alpha is allowed, plus one to four taken from the random byte
    unless the random start is disabled, the last two only for the VRF
    (or unnamed) beacon backend; between 2 and 8 in all. *)
Theorem initialEpochTransitionsWith_epochs {E : Type} (BackendVRF : string)
    (sc : runtime.Scenario E) (fixture : runtime.NetworkFixture)
    (randByte : Z) (baseEpoch : beacon.EpochTime)
    (trace : list beacon.EpochTime) (epoch : beacon.EpochTime)
    (err : option (runtime.scenario_error E)) :
  runtime.initialEpochTransitionsWith E BackendVRF sc fixture randByte baseEpoch
  = (trace, Returns (epoch, err)) ->
  trace = runtime.epochs_set baseEpoch (length trace) /\
  epoch = u64 (baseEpoch + 1 + Z.of_nat (length trace)) /\
  (length trace <= runtime.transitions E BackendVRF sc randByte)%nat /\
  (err = None -> length trace = runtime.transitions E BackendVRF sc randByte) /\
  (2 <= runtime.transitions E BackendVRF sc randByte <= 8)%nat /\
  1 <= runtime.numSkips randByte <= 4.
Proof.
  unfold runtime.initialEpochTransitionsWith.
  destruct (advances_body BackendVRF sc fixture randByte baseEpoch _
              (consistent_init baseEpoch)) as ([Htrace Hepoch] & Hle & Heq).
  pose proof (transitions_bounds E BackendVRF sc randByte).
  pose proof (numSkips_bounds randByte).
  destruct (runtime.initialEpochTransitionsWith_body E BackendVRF sc fixture randByte _)
    as [[epoch' trace'] [[]|e|p]]; simpl in *;
    intros [= <- <- <-]; repeat split; try done; try lia.
  intros _. by apply Heq.
Qed.

Example initialEpochTransitions_example :
  runtime.initialEpochTransitions string "vrf" example_scenario example_fixture 6
  = ([1; 2; 3; 4; 5; 6; 7], Returns (8, None)).
Proof. reflexivity. Qed.

Lemma initialEpochTransitionsWith_epochs_witness :
  [1; 2; 3; 4; 5; 6; 7] = runtime.epochs_set 0 (length [1; 2; 3; 4; 5; 6; 7]) /\
  8 = u64 (0 + 1 + Z.of_nat (length [1; 2; 3; 4; 5; 6; 7])) /\
  (length [1; 2; 3; 4; 5; 6; 7]
   <= runtime.transitions string "vrf" example_scenario 6)%nat /\
  (@None (runtime.scenario_error string) = None ->
   length [1; 2; 3; 4; 5; 6; 7]
   = runtime.transitions string "vrf" example_scenario 6) /\
  (2 <= runtime.transitions string "vrf" example_scenario 6 <= 8)%nat /\
  1 <= runtime.numSkips 6 <= 4.
Proof.
  apply (initialEpochTransitionsWith_epochs "vrf" example_scenario example_fixture
           6 0 [1; 2; 3; 4; 5; 6; 7] 8 None).
  reflexivity.
Defined.

(** ** A run that nothing disturbs *)

Section Undisturbed.
Variable E : Type.

Lemma wait_nodes_ready (nodes : list (option E)) (noAutoStart : list bool) (i : nat) :
  (i + length nodes <= length noAutoStart)%nat ->
  (forall (j : nat) (err : E),
     nodes !! j = Some (Some err) -> noAutoStart !! (i + j)%nat = Some true) ->
  runtime.wait_nodes E nodes noAutoStart i = Returns None.
Proof.
  revert i. induction nodes as [|n rest IH]; intros i Hlen Hready; simpl in *; [done|].
  destruct (lookup_lt_is_Some_2 noAutoStart i ltac:(lia)) as [flag Hflag].
  rewrite Hflag.
  assert (runtime.wait_nodes E rest noAutoStart (S i) = Returns None) as Hrest.
  { apply IH; [lia|]. intros j err Hj.
    replace (S i + j)%nat with (i + S j)%nat by lia. by apply (Hready (S j) err). }
  destruct flag; [done|]. destruct n as [err|]; [|done].
  specialize (Hready 0%nat err eq_refl). rewrite Nat.add_0_r in Hready. congruence.
Qed.

Lemma falls_through_wait_all (wrap : E -> runtime.scenario_error E)
    (nodes : list (option E)) (noAutoStart : list bool) :
  runtime.all_ready E nodes noAutoStart ->
  runtime.falls_through E (runtime.wait_all E wrap nodes noAutoStart).
Proof.
  intros [Hlen Hready] st. unfold runtime.wait_all.
  rewrite wait_nodes_ready; [done|simpl; lia|].
  intros j err Hj. simpl. by apply (Hready j err).
Qed.

Lemma falls_through_bind (m n : runtime.run E unit) :
  runtime.falls_through E m ->
  runtime.falls_through E n ->
  runtime.falls_through E (runtime.bind E m (fun _ => n)).
Proof.
  intros Hm Hn st. unfold runtime.bind. specialize (Hm st).
  destruct (m st) as [st' r]. simpl in Hm. subst r. apply Hn.
Qed.

Lemma falls_through_when (b : bool) (m : runtime.run E unit) :
  (b = true -> runtime.falls_through E m) ->
  runtime.falls_through E (runtime.when E b m).
Proof. intros Hm. destruct b; simpl; [by apply Hm|done]. Qed.

Lemma falls_through_advanceEpoch (net : runtime.Network E) :
  (forall epoch : beacon.EpochTime, runtime.SetEpoch E net epoch = None) ->
  runtime.falls_through E (runtime.advanceEpoch E net).
Proof. intros Hset [epoch trace]. simpl. by rewrite Hset. Qed.

Lemma falls_through_advance_times (net : runtime.Network E) (n : nat) :
  (forall epoch : beacon.EpochTime, runtime.SetEpoch E net epoch = None) ->
  runtime.falls_through E (runtime.advance_times E net n).
Proof.
  intros Hset. induction n as [|n IH]; simpl; [done|].
  apply falls_through_bind; [by apply falls_through_advanceEpoch|done].
Qed.
End Undisturbed.

(** X19: when setting an epoch never fails, every node that is waited
    for is ready and has a fixture entry (nodes that are not started
    automatically may be unready), and the registration of the nodes is
    waited for successfully whenever there are byzantine nodes,
    [initialEpochTransitionsWith] returns no error: it sets the full
    number of consecutive epochs after [baseEpoch] and returns the next
    one. *)
Theorem initialEpochTransitionsWith_undisturbed {E : Type} (BackendVRF : string)
    (sc : runtime.Scenario E) (fixture : runtime.NetworkFixture)
    (randByte : Z) (baseEpoch : beacon.EpochTime) :
  (forall epoch : beacon.EpochTime,
     runtime.SetEpoch E (runtime.Net E sc) epoch = None) ->
  (runtime.Keymanagers E (runtime.Net E sc) = [] \/
   (runtime.all_ready E (runtime.Validators E (runtime.Net E sc))
      (runtime.ValidatorsNoAutoStart fixture) /\
    runtime.all_ready E (runtime.Keymanagers E (runtime.Net E sc))
      (runtime.KeymanagersNoAutoStart fixture))) ->
  runtime.all_ready E (runtime.ComputeWorkers E (runtime.Net E sc))
    (runtime.ComputeWorkersNoAutoStart fixture) ->
  (runtime.Byzantine E (runtime.Net E sc) = [] \/
   runtime.WaitNodesRegistered E (runtime.Net E sc) = None) ->
  runtime.initialEpochTransitionsWith E BackendVRF sc fixture randByte baseEpoch
  = (runtime.epochs_set baseEpoch (runtime.transitions E BackendVRF sc randByte),
     Returns (u64 (baseEpoch + 1
                   + Z.of_nat (runtime.transitions E BackendVRF sc randByte)),
              None)).
Proof.
  intros Hset Hkm Hcw Hbyz.
  assert (runtime.falls_through E
            (runtime.initialEpochTransitionsWith_body E BackendVRF sc fixture randByte))
    as Hok.
  { unfold runtime.initialEpochTransitionsWith_body. cbv zeta.
    apply falls_through_bind.
    { apply falls_through_when. intros Hlen.
      destruct Hkm as [Hnil|[Hv Hk]]; [by rewrite Hnil in Hlen|].
      apply falls_through_bind; by apply falls_through_wait_all. }
    apply falls_through_bind; [by apply falls_through_advanceEpoch|].
    apply falls_through_bind; [by apply falls_through_wait_all|].
    apply falls_through_bind.
    { apply falls_through_when. intros Hlen.
      destruct Hbyz as [Hnil|Hwait]; [by rewrite Hnil in Hlen|].
      intros st. unfold runtime.wait_registered. by rewrite Hwait. }
    apply falls_through_bind; [by apply falls_through_advanceEpoch|].
    apply falls_through_when. intros _. apply falls_through_bind.
    - apply falls_through_when. intros _.
      apply falls_through_bind; by apply falls_through_advanceEpoch.
    - apply falls_through_when. intros _. by apply falls_through_advance_times. }
  unfold runtime.initialEpochTransitionsWith.
  destruct (advances_body BackendVRF sc fixture randByte baseEpoch _
              (consistent_init baseEpoch)) as ([Htrace Hepoch] & _ & Heq).
  specialize (Hok (u64 (baseEpoch + 1), [])).
  destruct (runtime.initialEpochTransitionsWith_body E BackendVRF sc fixture randByte _)
    as [[epoch trace] r]; simpl in *. subst r.
  specialize (Heq eq_refl). rewrite Heq in Htrace, Hepoch. by rewrite <- Htrace, Hepoch.
Qed.

Lemma initialEpochTransitionsWith_undisturbed_witness :
  runtime.initialEpochTransitionsWith string "vrf" example_scenario example_fixture 6 41
  = (runtime.epochs_set 41 (runtime.transitions string "vrf" example_scenario 6),
     Returns (u64 (41 + 1 + Z.of_nat (runtime.transitions string "vrf" example_scenario 6)),
              None)).
Proof.
  apply (initialEpochTransitionsWith_undisturbed "vrf" example_scenario example_fixture 6 41).
  - reflexivity.
  - right. split; (split; [simpl; lia|]); intros [|[|[|i]]] err H; discriminate H.
  - split; [simpl; lia|]. intros [|[|i]] err H; try discriminate H. reflexivity.
  - by left.
Defined.

(** ** A refused epoch *)

Section RefusedEpoch.
Variable E : Type.
Variable net : runtime.Network E.

Lemma reports_bind (m n : runtime.run E unit) :
  runtime.reports_refused_epoch E net m ->
  runtime.reports_refused_epoch E net n ->
  runtime.reports_refused_epoch E net (runtime.bind E m (fun _ => n)).
Proof.
  intros Hm Hn st err. unfold runtime.bind.
  specialize (Hm st err). destruct (m st) as [st' [[]|e|p]]; simpl in *.
  - apply Hn.
  - done.
  - done.
Qed.

Lemma reports_when (b : bool) (m : runtime.run E unit) :
  runtime.reports_refused_epoch E net m ->
  runtime.reports_refused_epoch E net (runtime.when E b m).
Proof. intros Hm. destruct b; simpl; [done|]. by intros st err. Qed.

Lemma reports_advanceEpoch :
  runtime.reports_refused_epoch E net (runtime.advanceEpoch E net).
Proof.
  intros [epoch trace] err. simpl.
  destruct (runtime.SetEpoch E net epoch) as [e|] eqn:Hset; simpl; [|done].
  by intros [= <-].
Qed.

Lemma reports_wait_all (wrap : E -> runtime.scenario_error E)
    (nodes : list (option E)) (noAutoStart : list bool) :
  (forall e e' : E, wrap e <> runtime.ErrSetEpoch e') ->
  runtime.reports_refused_epoch E net (runtime.wait_all E wrap nodes noAutoStart).
Proof.
  intros Hwrap st err. unfold runtime.wait_all.
  destruct (runtime.wait_nodes E nodes noAutoStart 0) as [[e|]|p]; simpl; try done.
  intros [= H]. by apply Hwrap in H.
Qed.

Lemma reports_wait_registered :
  runtime.reports_refused_epoch E net (runtime.wait_registered E net).
Proof.
  intros st err. unfold runtime.wait_registered.
  by destruct (runtime.WaitNodesRegistered E net).
Qed.

Lemma reports_advance_times (n : nat) :
  runtime.reports_refused_epoch E net (runtime.advance_times E net n).
Proof.
  induction n as [|n IH]; simpl; [by intros st err|].
  apply reports_bind; [apply reports_advanceEpoch|done].
Qed.
End RefusedEpoch.

(** X20: when [initialEpochTransitionsWith] returns the set-epoch
    error, the epoch it returns is the very epoch the network refused to
    be set to, with the network's error wrapped. *)
Theorem initialEpochTransitionsWith_refused_epoch {E : Type} (BackendVRF : string)
    (sc : runtime.Scenario E) (fixture : runtime.NetworkFixture)
    (randByte : Z) (baseEpoch : beacon.EpochTime)
    (trace : list beacon.EpochTime) (epoch : beacon.EpochTime) (err : E) :
  runtime.initialEpochTransitionsWith E BackendVRF sc fixture randByte baseEpoch
  = (trace, Returns (epoch, Some (runtime.ErrSetEpoch err))) ->
  runtime.SetEpoch E (runtime.Net E sc) epoch = Some err.
Proof.
  assert (runtime.reports_refused_epoch E (runtime.Net E sc)
            (runtime.initialEpochTransitionsWith_body E BackendVRF sc fixture randByte))
    as Hrep.
  { unfold runtime.initialEpochTransitionsWith_body. cbv zeta.
    apply reports_bind.
    { apply reports_when. apply reports_bind; by apply reports_wait_all. }
    apply reports_bind; [apply reports_advanceEpoch|].
    apply reports_bind; [by apply reports_wait_all|].
    apply reports_bind; [apply reports_when, reports_wait_registered|].
    apply reports_bind; [apply reports_advanceEpoch|].
    apply reports_when. apply reports_bind.
    - apply reports_when. apply reports_bind; apply reports_advanceEpoch.
    - apply reports_when. apply reports_advance_times. }
  unfold runtime.initialEpochTransitionsWith.
  specialize (Hrep (u64 (baseEpoch + 1), []) err).
  destruct (runtime.initialEpochTransitionsWith_body E BackendVRF sc fixture randByte _)
    as [[epoch' trace'] [[]|e|p]]; simpl in *; intros [= <- <- ->].
  by apply Hrep.
Qed.

Lemma initialEpochTransitionsWith_refused_epoch_witness :
  (fun epoch : Z => if epoch =? 3 then Some "halted"%string else None) 3
  = Some "halted"%string.
Proof.
  apply (initialEpochTransitionsWith_refused_epoch "vrf"
           (runtime.mkScenario string
              (runtime.mkNetwork string [] [] [] [] None ""
                 (fun epoch : Z => if epoch =? 3 then Some "halted"%string else None))
              false false)
           (runtime.mkNetworkFixture [] [] []) 0 0 [1; 2] 3 "halted").
  reflexivity.
Defined.

(** ** Waiting for the nodes to sync *)

Lemma check_all_None {E : Type} (nodes : list (runtime.Node E)) :
  runtime.check_all E nodes = None <->
  Forall (fun n => runtime.checkSynced E n = None) nodes.
Proof.
  induction nodes as [|n rest IH]; simpl.
  - split; [by constructor|done].
  - rewrite Forall_cons. destruct (runtime.checkSynced E n) as [err|].
    + split; [done|]. by intros [? _].
    + rewrite IH. tauto.
Qed.

Lemma check_all_Some {E : Type} (nodes : list (runtime.Node E))
    (err : runtime.sync_error E) :
  runtime.check_all E nodes = Some err <->
  exists before n after,
    nodes = before ++ n :: after /\
    Forall (fun n => runtime.checkSynced E n = None) before /\
    runtime.checkSynced E n = Some err.
Proof.
  induction nodes as [|n rest IH]; simpl.
  - split; [done|]. intros (before & m & after & Hnil & _). by destruct before.
  - destruct (runtime.checkSynced E n) as [e|] eqn:Hn.
    + split.
      * intros [= <-]. by exists [], n, rest.
      * intros ([|m before] & m' & after & Hsplit & Hbefore & Hm');
          injection Hsplit as <- ->.
        -- congruence.
        -- apply Forall_cons in Hbefore as [Hm _]. congruence.
    + rewrite IH. split.
      * intros (before & m & after & -> & Hbefore & Hm).
        exists (n :: before), m, after.
        split; [done|]. split; [by constructor|done].
      * intros ([|m before] & m' & after & Hsplit & Hbefore & Hm');
          injection Hsplit as <- ->.
        -- congruence.
        -- apply Forall_cons in Hbefore as [_ Hbefore]. by exists before, m', after.
Qed.

(** X21: [waitNodesSynced] checks the validators, then the compute
    workers, then the clients, and stops at the first node that fails:
    it returns no error exactly when every node gets a controller and
    syncs, and otherwise the error of the first failing node in that
    order, every node before it having synced. *)
Theorem waitNodesSynced_first_failure {E : Type}
    (validators computeWorkers clients : list (runtime.Node E)) :
  (runtime.waitNodesSynced E validators computeWorkers clients = None <->
   Forall (fun n => runtime.checkSynced E n = None)
     (validators ++ computeWorkers ++ clients)) /\
  (forall err : runtime.sync_error E,
     runtime.waitNodesSynced E validators computeWorkers clients = Some err <->
     exists before n after,
       validators ++ computeWorkers ++ clients = before ++ n :: after /\
       Forall (fun n => runtime.checkSynced E n = None) before /\
       runtime.checkSynced E n = Some err).
Proof.
  assert (forall l1 l2 : list (runtime.Node E),
            runtime.check_all E (l1 ++ l2)
            = match runtime.check_all E l1 with
              | Some err => Some err
              | None => runtime.check_all E l2
              end) as Happ.
  { intros l1 l2. induction l1 as [|n l1 IH]; simpl; [done|].
    by destruct (runtime.checkSynced E n). }
  assert (runtime.waitNodesSynced E validators computeWorkers clients
          = runtime.check_all E (validators ++ computeWorkers ++ clients)) as ->.
  { unfold runtime.waitNodesSynced. rewrite !Happ.
    destruct (runtime.check_all E validators); [done|].
    destruct (runtime.check_all E computeWorkers); [done|].
    by destruct (runtime.check_all E clients). }
  split; [apply check_all_None|]. intros err. apply check_all_Some.
Qed.
